(** * Verification of the podcast video generator (backupberhasil.py)

    A shallow embedding of the subtitle layout routine, the image scaler,
    the per-frame compositor and the clip sequencer, followed by the
    properties of the specification that concern them.

    Conventions.  Python [str] values are [string]s, over the code points
    below 256; [int] values are [Z]; [enumerate] indices are [nat].  A
    finite Python float is the rational [Q] it denotes, and every float
    operation rounds its exact result to binary64 with [b64] (nearest, ties
    to even, 53-bit significand).  The exponent range is not bounded below
    (no subnormals); overflow to infinity is modelled where the program can
    observe it, through [fl].
    The Pillow, numpy and moviepy calls whose pixel-level behaviour the
    program merely consumes (text metrics, resampling, pasting, glyph
    drawing, the sine, audio decoding) appear as parameters of the model. *)

From Stdlib Require Import ZArith QArith Qround Qabs List String Ascii Bool.
From Stdlib Require Import Lia Lqa.
From Stdlib Require Import DecimalString DecimalNat Sorted.
From Equations Require Import Equations.
Import ListNotations.

Local Open Scope string_scope.
Local Open Scope Z_scope.

(** ** Python strings: [str.isspace], [str.split()] and [' '.join] *)

Module PyStr.

(** The code points below 256 on which [str.isspace] is true:
    TAB..CR, FS..US, SPACE, NEL and NBSP. *)
Definition isspace (c : ascii) : bool :=
  let n := N_of_ascii c in
  (((9 <=? n) && (n <=? 13)) || ((28 <=? n) && (n <=? 32))
   || (n =? 133) || (n =? 160))%N.

Definition is_empty (s : string) : bool :=
  match s with EmptyString => true | String _ _ => false end.

(** [split_from cur s]: scan [s] with the word [cur] under construction. *)
Fixpoint split_from (cur s : string) : list string :=
  match s with
  | EmptyString => if is_empty cur then [] else [cur]
  | String c s' =>
      if isspace c
      then (if is_empty cur then split_from "" s' else cur :: split_from "" s')
      else split_from (cur ++ String c "") s'
  end.

(** [text.split()] with no separator: maximal runs of non-space characters. *)
Definition split (s : string) : list string := split_from "" s.

(** [sep.join(l)]; the program uses [' '.join] and ['\n'.join]. *)
Definition join (sep : string) (l : list string) : string :=
  String.concat sep l.

Definition newline : string := String (ascii_of_nat 10) "".

(** [s] holds no whitespace character. *)
Fixpoint spacefree (s : string) : bool :=
  match s with
  | EmptyString => true
  | String c s' => negb (isspace c) && spacefree s'
  end.

(** A word as [split] produces them: non-empty and free of whitespace. *)
Definition is_word (s : string) : bool := negb (is_empty s) && spacefree s.

End PyStr.

(** ** Greedy word wrap: the closure [wrap_text] of [create_subtitle_mask] *)

Section WrapText.

(** [text_width s] is [bbox[2] - bbox[0]] of
    [draw.textbbox((0, 0), s, font=font)] for the font at hand. *)
Variable text_width : string -> Z.
Variable max_width : Z.

(** One iteration of [for word in words], on the pair
    ([lines], [current_line]). *)
Definition wrap_step (st : list string * list string) (word : string)
  : list string * list string :=
  let '(lines, current_line) := st in
  let test_line := PyStr.join " " (current_line ++ [word])%list in
  if text_width test_line <=? max_width
  then (lines, (current_line ++ [word])%list)
  else ((lines ++ [PyStr.join " " current_line])%list, [word]).

Definition wrap_text (text : string) : list string :=
  let words := PyStr.split text in
  let '(lines, current_line) := fold_left wrap_step words ([], []) in
  match current_line with
  | [] => lines
  | _ :: _ => (lines ++ [PyStr.join " " current_line])%list
  end.

(** The lines of a wrap that contain at least one word. *)
Definition has_word (line : string) : bool :=
  match PyStr.split line with [] => false | _ :: _ => true end.

End WrapText.


(** ** Calls that may raise *)

Inductive exn : Type :=
| OSError            (* file missing or unreadable *)
| ValueError
| ZeroDivisionError
| AttributeError     (* attribute access on [None] *)
| IndexError
| OverflowError.

Inductive result (A : Type) : Type :=
| Ok (a : A)
| Raise (e : exn).
Arguments Ok {A} a.
Arguments Raise {A} e.

Definition is_raise {A} (r : result A) : bool :=
  match r with Ok _ => false | Raise _ => true end.

(** ** Rasters *)

(** A numpy array of shape (rows, columns, channels). *)
Definition Array : Type := list (list (list Z)).

(** A Pillow image: its [size] is (width, height). *)
Record Image : Type := { im_size : Z * Z; im_data : Array }.

(** ** Subtitle renderer: [SubtitleGenerator.create_subtitle_mask] *)

(** The font objects the routine can hold: the DejaVu face loaded at a
    pixel size, or Pillow's built-in default font. *)
Inductive Font : Type :=
| TrueType (size : Z)
| DefaultFont.

(** One [draw.multiline_text(xy, text, font=font, fill=fill, align='center')]. *)
Record draw_op : Type :=
  { op_xy : Z * Z; op_text : string; op_font : Font; op_fill : Z * Z * Z * Z }.

(** The local variables of the shrink loop.  [tried] is a ghost variable:
    the font sizes at which [wrap_text] has been run, oldest first. *)
Record shrink_vars : Type :=
  { current_fontsize : Z;
    font : Font;
    wrapped_lines : list string;
    tried : list Z }.

(** [range(lo, hi)] *)
Definition range (lo hi : Z) : list Z :=
  map (fun k => lo + Z.of_nat k) (seq 0 (Z.to_nat (hi - lo))).

Section Subtitle.

(** Whether [ImageFont.truetype("/usr/share/fonts/TTF/DejaVuSans.ttf", size)]
    succeeds in the running environment. *)
Variable truetype_loads : Z -> bool.
(** [bbox[2] - bbox[0]] of [draw.textbbox((0, 0), s, font=f)]. *)
Variable textbbox_width : Font -> string -> Z.
(** [draw.multiline_textbbox((0, 0), s, font=f)]. *)
Variable multiline_textbbox : Font -> string -> Z * Z * Z * Z.
(** [np.array] of a transparent RGBA image of the given size on which the
    draw operations have been performed in order. *)
Variable rasterize : Z -> Z -> list draw_op -> Array.

Definition ImageFont_truetype (size : Z) : result Font :=
  if truetype_loads size then Ok (TrueType size) else Raise OSError.

(** Lines 101-104: [try: truetype(...) except: load_default()]. *)
Definition initial_font (fontsize : Z) : Font :=
  match ImageFont_truetype fontsize with
  | Ok f => f
  | Raise _ => DefaultFont
  end.

(** Lines 130-137, the [while current_fontsize > 20] loop. *)
Equations? shrink_loop (text : string) (max_width : Z) (v : shrink_vars)
  : result shrink_vars by wf (Z.to_nat (current_fontsize v - 20)) lt :=
  shrink_loop text max_width v with Z_lt_dec 20 (current_fontsize v) => {
    | right _ => Ok v
    | left _ with ImageFont_truetype (current_fontsize v) => {
        | Raise e => Raise e
        | Ok f with
            (List.length (wrap_text (textbbox_width f) max_width text) <=? 3)%nat => {
            | true =>
                Ok {| current_fontsize := current_fontsize v;
                      font := f;
                      wrapped_lines :=
                        wrap_text (textbbox_width f) max_width text;
                      tried := (tried v ++ [current_fontsize v])%list |}
            | false =>
                shrink_loop text max_width
                  {| current_fontsize := current_fontsize v - 2;
                     font := f;
                     wrapped_lines :=
                       wrap_text (textbbox_width f) max_width text;
                     tried := (tried v ++ [current_fontsize v])%list |} } } }.
Proof. simpl. lia. Qed.

(** Lines 126-137: the variables on entry to the loop, then the loop. *)
Definition fit_text (w : Z) (text : string) (fontsize : Z)
  : result shrink_vars :=
  let max_subtitle_width := w - 100 in
  shrink_loop text max_subtitle_width
    {| current_fontsize := fontsize;
       font := initial_font fontsize;
       wrapped_lines := [];
       tried := [] |}.

(** Lines 147-155: 25 black outline passes, then the white text. *)
Definition caption_ops (x y : Z) (wrapped_text : string) (f : Font)
  : list draw_op :=
  let outline_color := (0, 0, 0, 255) in
  let outline_width := 2 in
  (flat_map
     (fun offset_x =>
        map (fun offset_y =>
               {| op_xy := (x + offset_x, y + offset_y);
                  op_text := wrapped_text;
                  op_font := f;
                  op_fill := outline_color |})
            (range (- outline_width) (outline_width + 1)))
     (range (- outline_width) (outline_width + 1))
   ++ [ {| op_xy := (x, y); op_text := wrapped_text; op_font := f;
           op_fill := (255, 255, 255, 255) |} ])%list.

Definition create_subtitle_mask (w h : Z) (text : string) (fontsize : Z)
  : result Array :=
  match fit_text w text fontsize with
  | Raise e => Raise e
  | Ok v =>
      let wrapped_text := PyStr.join PyStr.newline (wrapped_lines v) in
      let '(x0, y0, x1, y1) := multiline_textbbox (font v) wrapped_text in
      let text_width := x1 - x0 in
      let text_height := y1 - y0 in
      let x := (w - text_width) / 2 in
      let y := (h - text_height) / 2 in
      Ok (rasterize w h (caption_ops x y wrapped_text (font v)))
  end.

End Subtitle.


(** ** Binary64 arithmetic *)

(** [n / d] rounded to the nearest integer, ties to the even one ([d > 0]). *)
Definition round_half_even (n d : Z) : Z :=
  let f := n / d in
  match 2 * (n mod d) ?= d with
  | Lt => f
  | Gt => f + 1
  | Eq => if Z.even f then f else f + 1
  end.

(** [floor (log2 (n / d))] for positive [n] and [d]. *)
Definition binade (n d : Z) : Z :=
  let k0 := Z.log2 n - Z.log2 d in
  if (if 0 <=? k0 then d * 2 ^ k0 <=? n else d <=? n * 2 ^ (- k0))
  then k0 else k0 - 1.

(** The double nearest to [n / d] ([n], [d] positive): a 53-bit significand
    [m] and an exponent [e], for the value [m * 2 ^ e]. *)
Definition b64_pos (n d : Z) : Q :=
  let e := binade n d - 52 in
  if 0 <=? e
  then inject_Z (round_half_even n (d * 2 ^ e) * 2 ^ e)
  else Qmake (round_half_even (n * 2 ^ (- e)) d) (Z.to_pos (2 ^ (- e))).

(** Rounding of a rational to binary64, ties to even. *)
Definition b64 (q : Q) : Q :=
  match Qnum q with
  | 0 => 0%Q
  | Zpos p => b64_pos (Zpos p) (Zpos (Qden q))
  | Zneg p => Qopp (b64_pos (Zpos p) (Zpos (Qden q)))
  end.

(** The unit roundoff [2 ^ -53]. *)
Definition u64 : Q := 1 # 9007199254740992.

(** A float operation: the rounded result, or [None] when it is an
    infinity (a rounded magnitude of [2 ^ 1024] or more). *)
Definition fl (q : Q) : option Q :=
  let v := b64 q in
  if Qle_bool (inject_Z (2 ^ 1024)) (Qabs v) then None else Some v.

(** An [int] operand of a float operation: integers below [2 ^ 53] in
    magnitude are doubles already, larger ones are rounded, and one too
    large for a double raises [OverflowError] ([None]). *)
Definition float_of_int (z : Z) : option Q :=
  if Z.abs z <? 2 ^ 53 then Some (inject_Z z) else fl (inject_Z z).

(** [int(x)] on a finite float: truncation toward zero. *)
Definition Qint (q : Q) : Z := Z.quot (Qnum q) (Zpos (Qden q)).

(** ** Image scaler: [ImageProcessor.scale_image] *)

(** One [logging.error(f"{message}{e}")]. *)
Inductive log_record : Type :=
| LogError (message : string) (cause : exn).

(** Lines 75-77: the size asked of [resize], from the size of the source.
    [width / height] is the correctly rounded quotient of the two integers;
    the product is a float multiplication; [int] truncates.  A quotient too
    large for a double, a target height too large for one and an infinite
    product all end in [OverflowError]. *)
Definition scaled_size (size : Z * Z) (target_height : Z) : result (Z * Z) :=
  let '(width, height) := size in
  if height =? 0 then Raise ZeroDivisionError
  else
    match fl (inject_Z width / inject_Z height) with
    | None => Raise OverflowError
    | Some aspect_ratio =>
        match float_of_int target_height with
        | None => Raise OverflowError
        | Some target =>
            match fl (target * aspect_ratio) with
            | None => Raise OverflowError
            | Some product =>
                let new_width := Qint product in
                Ok (new_width, target_height)
            end
        end
    end.

Section Scaler.

(** [Image.open(path)]: the decoded image, or the error raised. *)
Variable Image_open : string -> result Image.
(** Pixel data of [img.resize(size, Image.Resampling.LANCZOS)], or the
    error raised. *)
Variable resample : Image -> Z * Z -> result Array.

(** [img.resize(size, ...)] returns a new image of the requested size. *)
Definition Image_resize (img : Image) (size : Z * Z) : result Image :=
  match resample img size with
  | Ok d => Ok {| im_size := size; im_data := d |}
  | Raise e => Raise e
  end.

(** The body of the [try] block, lines 74-78. *)
Definition scale_image_try (image_path : string) (target_height : Z)
  : result Image :=
  match Image_open image_path with
  | Raise e => Raise e
  | Ok img =>
      match scaled_size (im_size img) target_height with
      | Raise e => Raise e
      | Ok size => Image_resize img size
      end
  end.

(** [scale_image]: the value returned and the records logged.
    [except Exception as e: logging.error(...); return None]. *)
Definition scale_image (image_path : string) (target_height : Z)
  : option Image * list log_record :=
  match scale_image_try image_path target_height with
  | Ok scaled => (Some scaled, [])
  | Raise e => (None, [LogError "Error scaling image: " e])
  end.

End Scaler.

(** ** The object store *)

(** Pillow images are mutable objects: [paste] updates its receiver in
    place and [copy] makes a new object.  The store maps references to image
    values; a reference held by the program is always allocated, so the
    default value of [load] is never observed on a well-formed store. *)
Definition ref : Type := nat.
Definition heap : Type := list Image.

Definition blank : Image := {| im_size := (0, 0); im_data := [] |}.

Definition load (h : heap) (r : ref) : Image := nth r h blank.

Fixpoint store (h : heap) (r : ref) (v : Image) : heap :=
  match h, r with
  | [], _ => []
  | _ :: h', O => v :: h'
  | x :: h', S r' => x :: store h' r' v
  end.

(** Computations over the store that may raise; the store survives a raise. *)
Definition M (A : Type) : Type := heap -> result A * heap.

Definition ret {A} (a : A) : M A := fun h => (Ok a, h).

Definition raise {A} (e : exn) : M A := fun h => (Raise e, h).

Definition bind {A B} (c : M A) (k : A -> M B) : M B :=
  fun h =>
    match c h with
    | (Ok a, h') => k a h'
    | (Raise e, h') => (Raise e, h')
    end.

Definition lift {A} (r : result A) : M A := fun h => (r, h).

Declare Scope store_scope.
Delimit Scope store_scope with store.
Notation "x <- c ;; k" := (bind c (fun x => k))
  (at level 61, c at next level, right associativity) : store_scope.
Notation "c ;; k" := (bind c (fun _ => k))
  (at level 61, right associativity) : store_scope.

Definition alloc (v : Image) : M ref :=
  fun h => (Ok (List.length h), (h ++ [v])%list).

(** [img.copy()] *)
Definition Image_copy (r : ref) : M ref := fun h => alloc (load h r) h.

(** [np.array(img)] *)
Definition np_array (r : ref) : M Array := fun h => (Ok (im_data (load h r)), h).

(** ** Frame compositor: [DialogClip] *)

Record DialogClip : Type :=
  { background : ref;
    char1 : option ref;        (* [None] when scaling failed *)
    char2 : option ref;
    text : string;
    speaking_char : Z;
    duration : Q;
    frame_width : Z;
    frame_height : Z }.

(** [DialogClip.__init__] *)
Definition DialogClip_init (background : ref) (char1 char2 : option ref)
    (text : string) (speaking_char : Z) (duration : Q) : DialogClip :=
  {| background := background; char1 := char1; char2 := char2;
     text := text; speaking_char := speaking_char; duration := duration;
     frame_width := 1920; frame_height := 1080 |}.

(** Line 233: [int(shake_amount * np.sin(t * 10))].  [np_sin x] is the
    double that [np.sin] returns on the finite double [x].  When [t * 10]
    overflows, the sine of an infinity is a nan and [int] raises
    [ValueError]; [int] of an infinite product raises [OverflowError]. *)
Definition shake_offset (np_sin : Q -> Q) (t : Q) : result Z :=
  let shake_amount := 5 in
  match fl (t * 10) with
  | None => Raise ValueError
  | Some x =>
      match fl (inject_Z shake_amount * np_sin x) with
      | None => Raise OverflowError
      | Some product => Ok (Qint product)
      end
  end.

(** Lines 245-246: where the mask's alpha is positive the frame pixel takes
    the mask's first three channels. *)
Definition overlay_pixel (frame_px mask_px : list Z) : list Z :=
  if 0 <? nth 3 mask_px 0 then firstn 3 mask_px else frame_px.

Fixpoint zip_with {A B C} (f : A -> B -> C) (l : list A) (m : list B)
  : list C :=
  match l, m with
  | a :: l', b :: m' => f a b :: zip_with f l' m'
  | _, _ => []
  end.

(** Every pixel of the array has a channel count accepted by [ok]. *)
Definition channels (ok : nat -> bool) (a : Array) : bool :=
  forallb (forallb (fun px => ok (List.length px))) a.

(** The two arrays have as many rows, and row by row as many columns. *)
Fixpoint same_rows {A B} (a : list (list A)) (b : list (list B)) : bool :=
  match a, b with
  | [], [] => true
  | r :: a', s :: b' =>
      (List.length r =? List.length s)%nat && same_rows a' b'
  | _, _ => false
  end.

(** Lines 245-246 on whole arrays.  [subtitle[:, :, 3]] needs a fourth
    channel; the boolean mask must have the frame's rows and columns; the
    three-channel values must fit the frame's pixels. *)
Definition overlay (frame_array subtitle : Array) : result Array :=
  if negb (channels (Nat.leb 4) subtitle) then Raise IndexError
  else if negb (same_rows frame_array subtitle) then Raise IndexError
  else if negb (channels (Nat.eqb 3) frame_array) then Raise ValueError
  else Ok (zip_with (zip_with overlay_pixel) frame_array subtitle).

Section Compositor.

Variable truetype_loads : Z -> bool.
Variable textbbox_width : Font -> string -> Z.
Variable multiline_textbbox : Font -> string -> Z * Z * Z * Z.
Variable rasterize : Z -> Z -> list draw_op -> Array.
(** Pixel data of [dst] after [dst.paste(src, box, mask)], or the error
    raised (a mask without transparency data, mismatched sizes). *)
Variable paste_pixels : Image -> Image -> Z * Z -> Image -> result Array.
(** [np.sin] on finite doubles. *)
Variable np_sin : Q -> Q.

(** [frame.paste(im, box, mask)]: in-place update of [frame]. *)
Definition Image_paste (frame im : ref) (box : Z * Z) (mask : ref) : M unit :=
  fun h =>
    let dst := load h frame in
    match paste_pixels dst (load h im) box (load h mask) with
    | Ok d => (Ok tt, store h frame {| im_size := im_size dst; im_data := d |})
    | Raise e => (Raise e, h)
    end.

(** [DialogClip.__call__] *)
Definition DialogClip_call (self : DialogClip) (t : Q) : M Array :=
  (frame <- Image_copy (background self) ;;
   let char_height := 400 in
   let margin := 10 in
   match char1 self, char2 self with
   | None, _ => raise AttributeError          (* [self.char1.size] *)
   | Some _, None => raise AttributeError     (* [self.char2.size] *)
   | Some c1, Some c2 =>
       size1 <- (fun h => (Ok (im_size (load h c1)), h)) ;;
       size2 <- (fun h => (Ok (im_size (load h c2)), h)) ;;
       let char2_width := fst size2 in
       let char1_x := margin in
       let char2_x := frame_width self - char2_width - margin in
       let char_y := frame_height self - char_height in
       offset <- lift (shake_offset np_sin t) ;;
       (if speaking_char self =? 1
        then Image_paste frame c1 (char1_x + offset, char_y) c1 ;;
             Image_paste frame c2 (char2_x, char_y) c2
        else Image_paste frame c1 (char1_x, char_y) c1 ;;
             Image_paste frame c2 (char2_x + offset, char_y) c2) ;;
       subtitle <- lift (create_subtitle_mask truetype_loads textbbox_width
                           multiline_textbbox rasterize
                           (frame_width self) (frame_height self)
                           (text self) 48) ;;
       frame_array <- np_array frame ;;
       lift (overlay frame_array subtitle)
   end)%store.

(** The store after a series of render calls, on any clips at any times. *)
Fixpoint after_calls (calls : list (DialogClip * Q)) (h : heap) : heap :=
  match calls with
  | [] => h
  | (c, t) :: rest => after_calls rest (snd (DialogClip_call c t h))
  end.

End Compositor.

(** The image objects a clip refers to are allocated. *)
Definition clip_allocated (h : heap) (c : DialogClip) : bool :=
  (background c <? List.length h)%nat
  && match char1 c with Some r => (r <? List.length h)%nat | None => true end
  && match char2 c with Some r => (r <? List.length h)%nat | None => true end.


(** ** Per-line clip builder and sequencer:
       [VideoCreator.create_conversation_video_oop] *)

Record Character : Type :=
  { name : string;
    image_path : string;
    voice_url : string;
    gender : string;
    scaled_image : option ref }.

(** [AudioFileClip(audio_file)] with the duration read off the decoded file. *)
Record AudioClip : Type := { audio_file : string; audio_duration : Q }.

(** A moviepy [VideoClip] made from a [DialogClip]: the frame function, the
    size read off its first frame, the duration and the audio track. *)
Record VideoClip : Type :=
  { make_frame : DialogClip;
    clip_size : Z * Z;
    clip_duration : Q;
    audio : option AudioClip }.

(** The result of [concatenate_videoclips]: every clip with the time at
    which it starts, every audio track with the time at which it starts,
    and the total duration. *)
Record Timeline : Type :=
  { segments : list (Q * VideoClip);
    audio_starts : list (AudioClip * Q);
    timeline_duration : Q }.

(** One text-to-speech request of the first loop. *)
Inductive tts_call : Type :=
| Gtts (text output_file lang : string)
| PlayHT (text output_file voice_url : string).

Definition enumerate {A} (l : list A) : list (nat * A) :=
  combine (seq 0 (List.length l)) l.

(** [f"dialog_{i}.mp3"] *)
Definition audio_file_name (i : nat) : string :=
  "dialog_" ++ NilEmpty.string_of_uint (Nat.to_uint i) ++ ".mp3".

(** Line 280: [is_host = i % 4 in [0, 1]]. *)
Definition is_host (i : nat) : bool :=
  existsb (Nat.eqb (i mod 4)) [0; 1]%nat.

(** Line 299: [speaking_char = 1 if i % 4 in [0, 1] else 2]. *)
Definition speaking_char_at (i : nat) : Z :=
  if existsb (Nat.eqb (i mod 4)) [0; 1]%nat then 1 else 2.

Definition host_init : Character :=
  {| name := "Host";
     image_path := "karakter/karaktercowok1.png";
     voice_url := "s3://voice-cloning-zero-shot/4adb8395-2eb3-4a8a-8a0d-0a78da2b7030/original/manifest.json";
     gender := "male";
     scaled_image := None |}.

Definition maya_init : Character :=
  {| name := "Maya";
     image_path := "karakter/karaktercewek2.png";
     voice_url := "s3://voice-cloning-zero-shot/a59cb96d-bba8-4e24-81f2-e60b888a0275/charlottenarrativesaad/manifest.json";
     gender := "female";
     scaled_image := None |}.

(** Line 281: [current_character = host if is_host else maya]. *)
Definition current_character (host maya : Character) (i : nat) : Character :=
  if is_host i then host else maya.

(** Lines 278-289: the synthesis requested for every line. *)
Definition tts_calls (host maya : Character) (texts languages : list string)
  : list tts_call :=
  let audio_files := map audio_file_name (seq 0 (List.length texts)) in
  map (fun '(i, (text, (output_file, lang))) =>
         if (lang =? "id")%string
         then Gtts text output_file "id"
         else PlayHT text output_file
                (voice_url (current_character host maya i)))
      (enumerate (combine texts (combine audio_files languages))).

(** [frame.shape[:2][::-1]]: (columns, rows). *)
Definition array_size (a : Array) : Z * Z :=
  (Z.of_nat (List.length (hd [] a)), Z.of_nat (List.length a)).

(** [np.cumsum] on doubles, continued from the running sum [acc]. *)
Fixpoint cumsum_from (acc : Q) (l : list Q) : list Q :=
  match l with
  | [] => []
  | x :: l' => let s := b64 (acc + x) in s :: cumsum_from s l'
  end.

(** [np.cumsum([0] + durations)] *)
Definition cumsum0 (durations : list Q) : list Q :=
  0%Q :: cumsum_from 0%Q durations.

(** [np.maximum(0, x)] *)
Definition maximum0 (x : Q) : Q := if Qle_bool 0 x then x else 0%Q.

(** [max([i for i, e in enumerate(tt) if e <= t])], if there is one. *)
Definition frame_index (tt : list Q) (t : Q) : option nat :=
  fold_left (fun best '(i, e) => if Qle_bool e t then Some i else best)
            (enumerate tt) None.

Section Sequencer.

Variable Image_open : string -> result Image.
Variable resample : Image -> Z * Z -> result Array.
(** Pixel data of [img.resize(size)], with Pillow's default filter. *)
Variable resize_default : Image -> Z * Z -> result Array.
(** [AudioFileClip(path)]: the decoded track, or the error raised. *)
Variable AudioFileClip : string -> result AudioClip.
Variable truetype_loads : Z -> bool.
Variable textbbox_width : Font -> string -> Z.
Variable multiline_textbbox : Font -> string -> Z * Z * Z * Z.
Variable rasterize : Z -> Z -> list draw_op -> Array.
Variable paste_pixels : Image -> Image -> Z * Z -> Image -> result Array.
Variable np_sin : Q -> Q.

(** [Character.scale_image]: stores and returns the scaled image; the
    records logged on the way are returned with the updated character. *)
Definition Character_scale_image (self : Character) (target_height : Z)
  : M (Character * list log_record) :=
  match scale_image Image_open resample (image_path self) target_height with
  | (Some img, log) =>
      (r <- alloc img ;;
       ret ({| name := name self; image_path := image_path self;
               voice_url := voice_url self; gender := gender self;
               scaled_image := Some r |}, log))%store
  | (None, log) =>
      ret ({| name := name self; image_path := image_path self;
              voice_url := voice_url self; gender := gender self;
              scaled_image := None |}, log)
  end.

(** Modelled from the spec: moviepy's [VideoClip] is a library class outside
    the repository.  [VideoClip(dialog, duration=duration)] calls
    [dialog(0)] at once, to read the frame size off the first frame: an
    error raised by the render function is raised by the constructor.  The
    new clip has no audio track. *)
Definition VideoClip_init (dialog : DialogClip) (duration : Q)
  : M VideoClip :=
  (frame <- DialogClip_call truetype_loads textbbox_width multiline_textbbox
              rasterize paste_pixels np_sin dialog 0%Q ;;
   ret {| make_frame := dialog; clip_size := array_size frame;
          clip_duration := duration; audio := None |})%store.

(** Modelled from the spec: [video_clip.set_audio(audio_clip)] returns a
    copy of the clip carrying the track. *)
Definition set_audio (video_clip : VideoClip) (audio_clip : AudioClip)
  : VideoClip :=
  {| make_frame := make_frame video_clip; clip_size := clip_size video_clip;
     clip_duration := clip_duration video_clip; audio := Some audio_clip |}.

(** Lines 296-305: one clip per line, in script order. *)
Fixpoint build_clips (background : ref) (host maya : Character)
    (items : list (nat * (string * string))) : M (list VideoClip) :=
  match items with
  | [] => ret []
  | (i, (text, audio_file)) :: rest =>
      (audio_clip <- lift (AudioFileClip audio_file) ;;
       let duration := b64 (audio_duration audio_clip + (1 # 2)) in
       let speaking_char := speaking_char_at i in
       let dialog :=
         DialogClip_init background (scaled_image host) (scaled_image maya)
           text speaking_char duration in
       video_clip <- VideoClip_init dialog duration ;;
       let final_clip := set_audio video_clip audio_clip in
       clips <- build_clips background host maya rest ;;
       ret (final_clip :: clips))%store
  end.

(** Modelled from the spec: moviepy's [concatenate_videoclips] is a library
    function outside the repository.  Clips follow one another in list order
    with no gap, overlap or transition, each carrying its own audio track.
    As moviepy 1.x computes it: the start times are the running sums
    [np.cumsum([0] + durations)] (no padding), kept non-negative; the
    maximum of the clip sizes is taken, which raises [ValueError] on an
    empty list; the first frame of the result, that is frame [0 - tt[i]] of
    the last clip [i] starting at or before time 0, is rendered at once;
    the total duration is the last running sum; each track starts with its
    clip. *)
Definition concatenate_videoclips (clips : list VideoClip) : M Timeline :=
  let tt := map maximum0 (cumsum0 (map clip_duration clips)) in
  match clips with
  | [] => raise ValueError
  | _ :: _ =>
      match frame_index tt 0%Q with
      | None => raise ValueError
      | Some i =>
          match nth_error clips i with
          | None => raise IndexError
          | Some c =>
              (_ <- DialogClip_call truetype_loads textbbox_width
                      multiline_textbbox rasterize paste_pixels np_sin
                      (make_frame c) (b64 (0 - nth i tt 0))%Q ;;
               ret {| segments := combine tt clips;
                      audio_starts :=
                        flat_map (fun '(c, t) =>
                                    match audio c with
                                    | Some a => [(a, t)]
                                    | None => []
                                    end)
                                 (combine clips tt);
                      timeline_duration := last tt 0%Q |})%store
          end
      end
  end.

(** Lines 294-307 for given image objects. *)
Definition sequence_clips (background : ref) (host maya : Character)
    (texts : list string) : M Timeline :=
  let audio_files := map audio_file_name (seq 0 (List.length texts)) in
  (clips <- build_clips background host maya
              (enumerate (combine texts audio_files)) ;;
   concatenate_videoclips clips)%store.

(** The function up to the encoder call: the records logged, the requests
    sent to the speech services and the timeline handed to
    [write_videofile]. *)
Definition create_conversation_video_oop (background_path : string)
    (texts languages : list string)
  : M (list log_record * list tts_call * Timeline) :=
  (opened <- lift (Image_open background_path) ;;
   resized <- lift (Image_resize resize_default opened (1920, 1080)) ;;
   background <- alloc resized ;;
   scaled1 <- Character_scale_image host_init 400 ;;
   let '(host, log1) := scaled1 in
   scaled2 <- Character_scale_image maya_init 400 ;;
   let '(maya, log2) := scaled2 in
   let requests := tts_calls host maya texts languages in
   final_video <- sequence_clips background host maya texts ;;
   ret ((log1 ++ log2)%list, requests, final_video))%store.

End Sequencer.

(** ** Sums of doubles *)

(** The sum of a list of doubles taken left to right from 0, every addition
    rounded: what [sum] and [np.cumsum] compute. *)
Definition fsum (l : list Q) : Q := fold_left (fun a x => b64 (a + x)) l 0%Q.

(** The exact sum. *)
Definition Qsum (l : list Q) : Q := fold_right Qplus 0%Q l.

(** The duration of a clip: [audio_clip.duration + 0.5], one rounded
    addition. *)
Definition padded (d : Q) : Q := b64 (d + (1 # 2)).

(** [x ^ n] *)
Fixpoint Qpow (x : Q) (n : nat) : Q :=
  match n with O => 1%Q | S n' => (x * Qpow x n')%Q end.

(** ** Rounding to nearest, as the specification words it *)

(** Python's [round]: the nearest integer, ties going to the even one. *)
Definition Qround_half_even (q : Q) : Z :=
  let f := Qfloor q in
  match Qcompare (q - inject_Z f) (1 # 2) with
  | Lt => f
  | Gt => f + 1
  | Eq => if Z.even f then f else f + 1
  end.

(** ** The unused method and the main program *)

(** [Character.generate_audio] (lines 181-195): the request it makes, if
    any; [generate_gtts] is called with its default language ['id']. *)
Definition Character_generate_audio (self : Character)
    (text output_file lang : string) : option tts_call :=
  if (lang =? "id")%string then Some (Gtts text output_file "id")
  else if (lang =? "en")%string
       then Some (PlayHT text output_file (voice_url self))
       else None.

(** Line 374: [languages = ['id', 'en'] * (len(texts) // 2)]. *)
Definition main_languages (n : nat) : list string :=
  List.concat (repeat ["id"; "en"] (n / 2)).

(** ** Notions used to state the behaviour of [wrap_text] *)

(** The first word of [next] did not fit at the end of [line]. *)
Definition overflows (text_width : string -> Z) (max_width : Z)
    (line next : string) : Prop :=
  exists w rest,
    PyStr.split next = w :: rest
    /\ max_width < text_width (PyStr.join " " (PyStr.split line ++ [w])%list).

(** A line that may legitimately exceed the limit: it holds one word. *)
Definition line_fits (text_width : string -> Z) (max_width : Z)
    (line : string) : Prop :=
  line = "" \/ text_width line <= max_width \/ PyStr.is_word line = true.


(** ** Sample environments *)

(** A four-line script whose tracks last 1, 3/2, 2 and 5/2 time units. *)
Definition four_tracks (file : string) : result AudioClip :=
  Ok {| audio_file := file;
        audio_duration :=
          if (file =? "dialog_0.mp3")%string then 1
          else if (file =? "dialog_1.mp3")%string then 3 # 2
          else if (file =? "dialog_2.mp3")%string then 2
          else 5 # 2 |}.

(** The tracks of that script, as decoded. *)
Definition sample_tracks : list AudioClip :=
  [ {| audio_file := "dialog_0.mp3"; audio_duration := 1 |};
    {| audio_file := "dialog_1.mp3"; audio_duration := 3 # 2 |};
    {| audio_file := "dialog_2.mp3"; audio_duration := 2 |};
    {| audio_file := "dialog_3.mp3"; audio_duration := 5 # 2 |} ].

Definition sample_texts : list string := ["satu"; "one"; "dua"; "two"].

(** A Pillow in which a glyph is six tenths of the font size wide. *)
Definition sample_width (f : Font) (s : string) : Z :=
  match f with
  | TrueType size => 6 * size * Z.of_nat (String.length s) / 10
  | DefaultFont => 6 * Z.of_nat (String.length s)
  end.

Definition sample_bbox (f : Font) (s : string) : Z * Z * Z * Z :=
  (0, 0, sample_width f s, 40).

Definition sample_rasterize (w h : Z) (ops : list draw_op) : Array :=
  [[[0; 0; 0; Z.of_nat (List.length ops)]]].

(** A paste that refuses a mask without an alpha channel, and otherwise
    paints the first pixel of the source over the destination where that
    pixel is opaque. *)
Definition sample_paste (dst src : Image) (box : Z * Z) (mask : Image)
  : result Array :=
  if channels (Nat.eqb 4) (im_data mask)
  then Ok (map (map (fun px => overlay_pixel px (hd [] (hd [] (im_data src)))))
               (im_data dst))
  else Raise ValueError.

(** [np.sin] tabulated at the arguments the examples use:
    [sin(0.0) = 0.0] and [sin(1.5) = 0.9974949866040544]. *)
Definition sample_sin (x : Q) : Q :=
  if Qeq_bool x (3 # 2) then 8984636099947915 # 9007199254740992 else 0%Q.


(** The double written [0.1]. *)
Definition d_01 : Q := 3602879701896397 # 36028797018963968.

(** A resampler that, like Pillow's, refuses an empty target size. *)
Definition strict_resample (img : Image) (size : Z * Z) : result Array :=
  if (0 <? fst size) && (0 <? snd size) then Ok (im_data img)
  else Raise ValueError.

(** A 7 x 4 picture behind every path. *)
Definition sample_open (path : string) : result Image :=
  Ok {| im_size := (7, 4); im_data := [[[255; 255; 255; 255]]] |}.

(** A 460 x 100 picture behind every path. *)
Definition banner_open (path : string) : result Image :=
  Ok {| im_size := (460, 100); im_data := [[[255; 255; 255; 255]]] |}.

(** A 1 x 1000 picture behind every path. *)
Definition sliver_open (path : string) : result Image :=
  Ok {| im_size := (1, 1000); im_data := [[[255; 255; 255; 255]]] |}.

(** A file system without the character pictures. *)
Definition missing_open (path : string) : result Image := Raise OSError.

(** A file system with the background picture only. *)
Definition background_only_open (path : string) : result Image :=
  if (path =? "background4.jpg")%string
  then Ok {| im_size := (640, 480); im_data := [[[10; 20; 30]]] |}
  else Raise OSError.

(** A file system with the background and both character pictures. *)
Definition studio_open (path : string) : result Image :=
  if (path =? "background4.jpg")%string
  then Ok {| im_size := (640, 480); im_data := [[[10; 20; 30]]] |}
  else Ok {| im_size := (300, 400); im_data := [[[1; 1; 1; 255]]] |}.

(** Sixty eight-letter words: 539 characters. *)
Definition long_text : string := PyStr.join " " (repeat "subtitle" 60).

(** A store holding a background and two sprites, and a clip on them. *)
Definition sample_heap : heap :=
  [ {| im_size := (1920, 1080); im_data := [[[10; 20; 30]]] |};
    {| im_size := (300, 400); im_data := [[[1; 1; 1; 255]]] |};
    {| im_size := (280, 400); im_data := [[[2; 2; 2; 255]]] |} ].

Definition sample_clip : DialogClip :=
  DialogClip_init 0%nat (Some 1%nat) (Some 2%nat) "Halo semua!" 1 (3 # 2).

(** The two characters once their pictures are scaled into [sample_heap]. *)
Definition host_scaled : Character :=
  {| name := name host_init; image_path := image_path host_init;
     voice_url := voice_url host_init; gender := gender host_init;
     scaled_image := Some 1%nat |}.

Definition maya_scaled : Character :=
  {| name := name maya_init; image_path := image_path maya_init;
     voice_url := voice_url maya_init; gender := gender maya_init;
     scaled_image := Some 2%nat |}.

(** A script whose second track is missing. *)
Definition broken_track (file : string) : result AudioClip :=
  if (file =? "dialog_1.mp3")%string then Raise OSError
  else Ok {| audio_file := file; audio_duration := 1 |}.

(** * Properties *)

(** ** Splitting and joining *)

Module PyStrFacts.
Import PyStr.

Lemma append_nil_r (s : string) : s ++ "" = s.
Proof. induction s as [|c s IH]; simpl; [reflexivity | now rewrite IH]. Qed.

Lemma append_assoc (a b c : string) : (a ++ b) ++ c = a ++ (b ++ c).
Proof. induction a as [|x a IH]; simpl; [reflexivity | now rewrite IH]. Qed.

Lemma is_empty_app (a b : string) :
  is_empty (a ++ b) = is_empty a && is_empty b.
Proof. destruct a; reflexivity. Qed.

Lemma spacefree_app (a b : string) :
  spacefree (a ++ b) = spacefree a && spacefree b.
Proof.
  induction a as [|c a IH]; simpl; [reflexivity |].
  now rewrite IH, andb_assoc.
Qed.

(** Scanning a space-free chunk only extends the word under construction. *)
Lemma split_from_spacefree (w : string) : forall cur s,
  spacefree w = true -> split_from cur (w ++ s) = split_from (cur ++ w) s.
Proof.
  induction w as [|c w IH]; intros cur s Hw; simpl in *.
  - now rewrite append_nil_r.
  - apply andb_prop in Hw as [Hc Hw].
    apply negb_true_iff in Hc. rewrite Hc.
    rewrite (IH _ _ Hw), append_assoc. reflexivity.
Qed.

(** A separator closes the word under construction. *)
Lemma split_from_sep (cur s : string) :
  split_from cur (" " ++ s) = (split_from cur "" ++ split s)%list.
Proof. simpl. destruct (is_empty cur); reflexivity. Qed.

Lemma split_from_app_sep (a : string) : forall cur b,
  split_from cur (a ++ String " " b) = (split_from cur a ++ split b)%list.
Proof.
  induction a as [|c a IH]; intros cur b.
  - apply (split_from_sep cur b).
  - change (String c a ++ String " " b) with (String c (a ++ String " " b)).
    cbn [split_from]. destruct (isspace c).
    + destruct (is_empty cur); rewrite IH; reflexivity.
    + apply IH.
Qed.

Lemma split_word (w : string) : is_word w = true -> split w = [w].
Proof.
  unfold is_word, split. intros H. apply andb_prop in H as [Hne Hsf].
  rewrite <- (append_nil_r w) at 1.
  rewrite (split_from_spacefree w "" "" Hsf). simpl.
  apply negb_true_iff in Hne. now rewrite Hne.
Qed.

(** Re-splitting a joined list of lines splits every line. *)
Lemma split_join (ls : list string) :
  split (join " " ls) = flat_map split ls.
Proof.
  unfold join. induction ls as [|l ls IH]; [reflexivity |].
  destruct ls as [|l' ls].
  - simpl. now rewrite app_nil_r.
  - change (String.concat " " (l :: l' :: ls))
      with (l ++ String " " (String.concat " " (l' :: ls))).
    unfold split at 1. rewrite split_from_app_sep.
    fold (split l). rewrite IH. reflexivity.
Qed.

Lemma flat_map_split_words (ws : list string) :
  forallb is_word ws = true -> flat_map split ws = ws.
Proof.
  induction ws as [|w ws IH]; simpl; [reflexivity |].
  intros H. apply andb_prop in H as [Hw Hws].
  now rewrite (split_word w Hw), (IH Hws).
Qed.

(** Joining words and splitting again gives the words back. *)
Lemma split_join_words (ws : list string) :
  forallb is_word ws = true -> split (join " " ws) = ws.
Proof. intros H. rewrite split_join. now apply flat_map_split_words. Qed.

(** [split] only ever returns words. *)
Lemma split_from_words (s : string) : forall cur,
  spacefree cur = true -> forallb is_word (split_from cur s) = true.
Proof.
  induction s as [|c s IH]; intros cur Hcur; simpl.
  - destruct (is_empty cur) eqn:E; simpl; [reflexivity |].
    unfold is_word. now rewrite E, Hcur.
  - destruct (isspace c) eqn:Hc.
    + destruct (is_empty cur) eqn:E; simpl.
      * now apply IH.
      * unfold is_word at 1. rewrite E, Hcur. simpl. now apply IH.
    + apply IH. rewrite spacefree_app, Hcur. simpl. now rewrite Hc.
Qed.

Lemma split_words (s : string) : forallb is_word (split s) = true.
Proof. now apply split_from_words. Qed.

End PyStrFacts.

(** ** Word wrap *)

Section WrapFacts.
Import PyStr PyStrFacts.

Variable text_width : string -> Z.
Variable max_width : Z.

Local Abbreviation step := (wrap_step text_width max_width).

(** The loop never touches the lines it has already closed. *)
Lemma wrap_fold_extends (ws : list string) : forall lines cur,
  exists ext, fst (fold_left step ws (lines, cur)) = (lines ++ ext)%list.
Proof.
  induction ws as [|w ws IH]; intros lines cur; simpl.
  - exists []. now rewrite app_nil_r.
  - destruct (text_width _ <=? max_width).
    + apply IH.
    + destruct (IH (lines ++ [join " " cur])%list [w]) as [ext Hext].
      exists (join " " cur :: ext). rewrite Hext, <- app_assoc. reflexivity.
Qed.

(** Loop invariant: the closed lines followed by the open line spell the
    words consumed so far, in order. *)
Lemma wrap_fold_words (ws : list string) : forall lines cur,
  forallb is_word ws = true -> forallb is_word cur = true ->
  (flat_map split (fst (fold_left step ws (lines, cur)))
     ++ snd (fold_left step ws (lines, cur))
   = flat_map split lines ++ cur ++ ws)%list
  /\ forallb is_word (snd (fold_left step ws (lines, cur))) = true.
Proof.
  induction ws as [|w ws IH]; intros lines cur Hws Hcur; simpl.
  - now rewrite app_nil_r.
  - simpl in Hws. apply andb_prop in Hws as [Hw Hws].
    destruct (text_width _ <=? max_width).
    + destruct (IH lines (cur ++ [w])%list Hws) as [E F].
      { rewrite forallb_app, Hcur. simpl. now rewrite Hw. }
      split; [| exact F]. rewrite E, <- app_assoc. reflexivity.
    + destruct (IH (lines ++ [join " " cur])%list [w] Hws) as [E F].
      { simpl. now rewrite Hw. }
      split; [| exact F]. rewrite E, flat_map_app. cbn [flat_map].
      rewrite app_nil_r, (split_join_words cur Hcur), <- app_assoc.
      reflexivity.
Qed.

Lemma wrap_text_words (text : string) :
  flat_map split (wrap_text text_width max_width text) = split text.
Proof.
  unfold wrap_text.
  destruct (wrap_fold_words (split text) [] [] (split_words text) eq_refl)
    as [E F].
  destruct (fold_left step (split text) ([], [])) as [lines cur].
  simpl in E, F. destruct cur as [|w cur].
  - now rewrite app_nil_r in E.
  - rewrite flat_map_app. cbn [flat_map].
    rewrite app_nil_r, (split_join_words (w :: cur) F). exact E.
Qed.

End WrapFacts.

(** C4.  Whatever the font metric and the width limit, the lines returned by
    [wrap_text], joined with spaces and split on whitespace again, are the
    words of the text in their original order: none is dropped, duplicated
    or moved.  The statement needs no assumption on the text, so it holds in
    particular for every text with at least one whitespace-separated word. *)
Theorem wrap_text_roundtrip :
  forall (text_width : string -> Z) (max_width : Z) (text : string),
    PyStr.split (PyStr.join " " (wrap_text text_width max_width text))
    = PyStr.split text.
Proof.
  intros. rewrite PyStrFacts.split_join. apply wrap_text_words.
Qed.

(** C10.  When the first word of the text is by itself wider than the limit,
    the first line returned by [wrap_text] is the empty string, and the
    number of returned lines exceeds the number of lines holding a word. *)
Theorem wrap_text_overlong_first_word :
  forall (text_width : string -> Z) (max_width : Z) (text w : string),
    hd_error (PyStr.split text) = Some w ->
    max_width < text_width w ->
    hd_error (wrap_text text_width max_width text) = Some ""
    /\ (List.length (filter has_word (wrap_text text_width max_width text))
        < List.length (wrap_text text_width max_width text))%nat.
Proof.
  intros tw mw text w Hhd Hwide.
  assert (E : exists rest, wrap_text tw mw text = "" :: rest).
  { unfold wrap_text. destruct (PyStr.split text) as [|w' ws]; [discriminate |].
    injection Hhd as ->. cbn [fold_left wrap_step app PyStr.join String.concat].
    destruct (Z.leb_spec (tw w) mw) as [Hle | _]; [lia |].
    destruct (wrap_fold_extends tw mw ws [""] [w]) as [ext Hext].
    destruct (fold_left _ ws _) as [lines cur]. simpl in Hext. subst lines.
    destruct cur; eexists; reflexivity. }
  destruct E as [rest ->]. split; [reflexivity |].
  cbn [filter has_word PyStr.split PyStr.split_from PyStr.is_empty List.length].
  pose proof (filter_length_le has_word rest). lia.
Qed.

(** The hypotheses of C10 are met by a four-letter word on a 3-pixel line. *)
Lemma wrap_text_overlong_first_word_witness :
  hd_error (wrap_text (fun s => Z.of_nat (String.length s)) 3 "long ab")
  = Some ""
  /\ (List.length (filter has_word
        (wrap_text (fun s => Z.of_nat (String.length s)) 3 "long ab"))
      < List.length (wrap_text (fun s => Z.of_nat (String.length s)) 3 "long ab"))%nat.
Proof.
  apply (wrap_text_overlong_first_word
           (fun s => Z.of_nat (String.length s)) 3 "long ab" "long").
  - reflexivity.
  - simpl. lia.
Defined.


(** ** Binary64 rounding *)

Lemma round_half_even_spec (n d : Z) :
  0 < d -> 2 * Z.abs (round_half_even n d * d - n) <= d.
Proof.
  intros Hd. unfold round_half_even.
  pose proof (Z.div_mod n d ltac:(lia)) as E.
  pose proof (Z.mod_pos_bound n d Hd) as B.
  destruct (Z.compare_spec (2 * (n mod d)) d) as [H | H | H];
    [destruct (Z.even (n / d)) | |]; nia.
Qed.

Lemma binade_lower (n d : Z) :
  0 < n -> 0 < d ->
  (0 <= binade n d -> d * 2 ^ binade n d <= n)
  /\ (binade n d < 0 -> d <= n * 2 ^ (- binade n d)).
Proof.
  intros Hn Hd. unfold binade.
  pose proof (Z.log2_spec n Hn) as [Hn1 Hn2].
  pose proof (Z.log2_spec d Hd) as [Hd1 Hd2].
  pose proof (Z.log2_nonneg n) as Ln. pose proof (Z.log2_nonneg d) as Ld.
  set (ln := Z.log2 n) in *. set (ld := Z.log2 d) in *.
  rewrite <- Z.add_1_r in Hn2, Hd2.
  destruct (Z.leb_spec 0 (ln - ld)) as [Hk | Hk].
  - destruct (Z.leb_spec (d * 2 ^ (ln - ld)) n) as [Hc | Hc].
    + split; [intros _; exact Hc | lia].
    + split; intros Hs.
      * assert (E : 2 ^ ln = 2 ^ (ld + 1) * 2 ^ (ln - ld - 1)).
        { rewrite <- Z.pow_add_r by lia. f_equal. lia. }
        assert (0 < 2 ^ (ln - ld - 1)) by (apply Z.pow_pos_nonneg; lia).
        nia.
      * assert (ln = ld) as E by lia. rewrite E, Z.sub_diag in *.
        change (- (0 - 1)) with 1. change (2 ^ 1) with 2.
        rewrite Z.pow_add_r in Hd2 by lia. change (2 ^ 1) with 2 in Hd2.
        lia.
  - destruct (Z.leb_spec d (n * 2 ^ (- (ln - ld)))) as [Hc | Hc].
    + split; [lia | intros _; exact Hc].
    + split; [lia | intros _].
      assert (E : 2 ^ (ld + 1) = 2 ^ ln * 2 ^ (- (ln - ld - 1))).
      { rewrite <- Z.pow_add_r by lia. f_equal. lia. }
      assert (0 < 2 ^ (- (ln - ld - 1))) by (apply Z.pow_pos_nonneg; lia).
      nia.
Qed.

(** The significand is at least [2 ^ 52]. *)
Lemma binade_scaled (n d : Z) :
  0 < n -> 0 < d ->
  let e := binade n d - 52 in
  (0 <= e -> 2 ^ 52 * (d * 2 ^ e) <= n)
  /\ (e < 0 -> 2 ^ 52 * d <= n * 2 ^ (- e)).
Proof.
  intros Hn Hd e. subst e.
  destruct (binade_lower n d Hn Hd) as [Hpos Hneg].
  set (k := binade n d) in *. split; intros He.
  - specialize (Hpos ltac:(lia)).
    replace k with (52 + (k - 52)) in Hpos at 1 by lia.
    rewrite Z.pow_add_r in Hpos by lia. lia.
  - destruct (Z_le_gt_dec 0 k) as [Hk | Hk].
    + specialize (Hpos Hk).
      assert (E : 2 ^ 52 = 2 ^ k * 2 ^ (- (k - 52))).
      { rewrite <- Z.pow_add_r by lia. f_equal. lia. }
      assert (0 < 2 ^ (- (k - 52))) by (apply Z.pow_pos_nonneg; lia).
      rewrite E. nia.
    + specialize (Hneg ltac:(lia)).
      assert (E : 2 ^ (- (k - 52)) = 2 ^ (- k) * 2 ^ 52).
      { rewrite <- Z.pow_add_r by lia. f_equal. lia. }
      rewrite E. nia.
Qed.

(** Relative error of rounding, cross-multiplied. *)
Lemma b64_pos_error (n d : Z) :
  0 < n -> 0 < d ->
  (Qabs (b64_pos n d - (n # Z.to_pos d)) * inject_Z (2 ^ 53)
   <= (n # Z.to_pos d))%Q.
Proof.
  intros Hn Hd. unfold b64_pos.
  destruct (binade_scaled n d Hn Hd) as [Hpos Hneg].
  set (e := binade n d - 52) in *.
  destruct (Z.leb_spec 0 e) as [He | He].
  - specialize (Hpos He).
    assert (HE : 0 < 2 ^ e) by (apply Z.pow_pos_nonneg; lia).
    set (E := 2 ^ e) in *.
    pose proof (round_half_even_spec n (d * E) ltac:(nia)) as Hr.
    set (m := round_half_even n (d * E)) in *.
    apply Qabs_case; intros _; unfold Qle, Qmult, Qminus, Qplus, Qopp,
      inject_Z; cbn [Qnum Qden];
      rewrite ?Pos2Z.inj_mul, ?Z2Pos.id by lia;
      change (2 ^ 53) with (2 * 2 ^ 52); nia.
  - specialize (Hneg He).
    assert (HF : 0 < 2 ^ (- e)) by (apply Z.pow_pos_nonneg; lia).
    set (F := 2 ^ (- e)) in *.
    pose proof (round_half_even_spec (n * F) d Hd) as Hr.
    set (m := round_half_even (n * F) d) in *.
    apply Qabs_case; intros _; unfold Qle, Qmult, Qminus, Qplus, Qopp,
      inject_Z; cbn [Qnum Qden];
      rewrite ?Pos2Z.inj_mul, ?Z2Pos.id by lia;
      change (2 ^ 53) with (2 * 2 ^ 52); nia.
Qed.

(** Rounding moves a value by at most the fraction [u64] of its size. *)
Lemma b64_error (q : Q) :
  (Qabs (b64 q - q) <= Qabs q * u64)%Q.
Proof.
  destruct q as [[|p|p] den]; unfold b64; cbn [Qnum Qden].
  - unfold Qle, Qabs, Qminus, Qplus, Qopp, Qmult, u64. cbn. lia.
  - pose proof (b64_pos_error (Zpos p) (Zpos den) ltac:(lia) ltac:(lia)) as H.
    cbn [Z.to_pos] in H.
    change (Qabs (Zpos p # den)) with (Zpos p # den).
    set (v := b64_pos (Zpos p) (Zpos den)) in *.
    set (x := (Zpos p # den)) in *.
    unfold u64 in *. change (2 ^ 53) with 9007199254740992 in H.
    change (inject_Z 9007199254740992) with (9007199254740992 # 1) in H.
    revert H. generalize (Qabs (v - x)). intros a H. lra.
  - pose proof (b64_pos_error (Zpos p) (Zpos den) ltac:(lia) ltac:(lia)) as H.
    cbn [Z.to_pos] in H.
    change (Qabs (Zneg p # den)) with (Zpos p # den).
    set (v := b64_pos (Zpos p) (Zpos den)) in *.
    set (x := (Zpos p # den)) in *.
    assert (Ea : (Qabs (- v - (Zneg p # den)) == Qabs (v - x))%Q).
    { rewrite <- (Qabs_opp (v - x)). apply Qabs_wd.
      change (Zneg p # den) with (- x)%Q. ring. }
    rewrite Ea.
    unfold u64 in *. change (2 ^ 53) with 9007199254740992 in H.
    change (inject_Z 9007199254740992) with (9007199254740992 # 1) in H.
    revert H. generalize (Qabs (v - x)). intros a H. lra.
Qed.

Lemma b64_bounds (q : Q) :
  (0 <= q -> q * (1 - u64) <= b64 q /\ b64 q <= q * (1 + u64))%Q.
Proof.
  intros Hq. pose proof (b64_error q) as H.
  rewrite (Qabs_pos q Hq) in H.
  apply Qabs_Qle_condition in H. destruct H as [H1 H2]. split; lra.
Qed.

Lemma b64_nonneg (q : Q) : (0 <= q -> 0 <= b64 q)%Q.
Proof.
  intros Hq. destruct (b64_bounds q Hq) as [H _].
  assert (0 <= q * (1 - u64))%Q; [| lra].
  apply Qmult_le_0_compat; [exact Hq | unfold u64; lra].
Qed.

Lemma b64_abs (q : Q) : (Qabs (b64 q) <= Qabs q * (1 + u64))%Q.
Proof.
  pose proof (b64_error q) as H.
  pose proof (Qabs_triangle (b64 q - q) q) as T.
  assert (E : (b64 q - q + q == b64 q)%Q) by ring.
  rewrite E in T. lra.
Qed.

(** A value far below [2 ^ 1024] does not round to an infinity. *)
Lemma fl_finite (q : Q) :
  (Qabs q <= inject_Z (2 ^ 1023))%Q -> fl q = Some (b64 q).
Proof.
  intros H. unfold fl.
  destruct (Qle_bool (inject_Z (2 ^ 1024)) (Qabs (b64 q))) eqn:E;
    [| reflexivity].
  exfalso. apply Qle_bool_iff in E.
  pose proof (b64_abs q) as Ha.
  assert (Hu : (Qabs q * (1 + u64) <= Qabs q * (3 # 2))%Q).
  { rewrite (Qmult_comm (Qabs q) (1 + u64)), (Qmult_comm (Qabs q) (3 # 2)).
    apply Qmult_le_compat_r; [unfold u64; lra | apply Qabs_nonneg]. }
  assert (Hp : (inject_Z (2 ^ 1024) == 2 * inject_Z (2 ^ 1023))%Q).
  { change (2 ^ 1024) with (2 * 2 ^ 1023). now rewrite inject_Z_mult. }
  assert (H0 : (0 < inject_Z (2 ^ 1023))%Q).
  { change 0%Q with (inject_Z 0). rewrite <- Zlt_Qlt. reflexivity. }
  revert H Ha Hu E Hp H0.
  generalize (inject_Z (2 ^ 1024)) (inject_Z (2 ^ 1023)) (Qabs (b64 q))
    (Qabs q). intros. lra.
Qed.

(** ** Truncation *)

Lemma Qint_floor (q : Q) : (0 <= q)%Q -> Qint q = Qfloor q.
Proof.
  destruct q as [n d]. unfold Qle, Qint, Qfloor. cbn [Qnum Qden].
  intros H. apply Z.quot_div_nonneg; lia.
Qed.


Lemma Qint_between (q : Q) (z : Z) :
  0 <= z -> (inject_Z z <= q)%Q -> (q < inject_Z (z + 1))%Q -> Qint q = z.
Proof.
  intros Hz Hlo Hhi.
  assert (Hq : (0 <= q)%Q).
  { apply Qle_trans with (inject_Z z); [| exact Hlo].
    change 0%Q with (inject_Z 0). now rewrite <- Zle_Qle. }
  rewrite (Qint_floor q Hq).
  assert (z <= Qfloor q).
  { rewrite <- (Qfloor_Z z). now apply Qfloor_resp_le. }
  assert (Qfloor q < z + 1).
  { rewrite Zlt_Qlt. apply Qle_lt_trans with q; [apply Qfloor_le | exact Hhi]. }
  lia.
Qed.



Lemma inject_Z_minus (a b : Z) :
  (inject_Z (a - b) == inject_Z a - inject_Z b)%Q.
Proof.
  unfold Z.sub. rewrite inject_Z_plus, inject_Z_opp. reflexivity.
Qed.


(** ** Image scaler *)

(** The width computed at lines 76-77 for sizes far from overflow. *)
Lemma scaled_width (t w h : Z) :
  0 < t -> 0 < w -> 0 < h -> t * w < 2 ^ 51 ->
  Qint (b64 (inject_Z t * b64 (inject_Z w / inject_Z h)))
  = t * w / h
  \/ ((t * w) mod h = 0
      /\ Qint (b64 (inject_Z t * b64 (inject_Z w / inject_Z h)))
         = t * w / h - 1).
Proof.
  intros Ht Hw Hh Hsmall.
  set (r := (inject_Z w / inject_Z h)%Q).
  set (N := t * w / h). set (rem := (t * w) mod h).
  pose proof (Z.div_mod (t * w) h ltac:(lia)) as Hdm. fold N rem in Hdm.
  pose proof (Z.mod_pos_bound (t * w) h Hh) as Hrem. fold rem in Hrem.
  assert (HN : 0 <= N) by (apply Z.div_pos; lia).
  (* the reciprocal of the height *)
  set (g := (/ inject_Z h)%Q).
  assert (Hhq : (0 < inject_Z h)%Q).
  { change 0%Q with (inject_Z 0). now rewrite <- Zlt_Qlt. }
  assert (Hg : (0 < g)%Q) by (now apply Qinv_lt_0_compat).
  assert (Hgh : (g * inject_Z h == 1)%Q).
  { unfold g. rewrite Qmult_comm. apply Qmult_inv_r. lra. }
  assert (Hr : (r == inject_Z w * g)%Q) by reflexivity.
  assert (Hwq : (0 < inject_Z w)%Q).
  { change 0%Q with (inject_Z 0). now rewrite <- Zlt_Qlt. }
  assert (Htq : (0 < inject_Z t)%Q).
  { change 0%Q with (inject_Z 0). now rewrite <- Zlt_Qlt. }
  assert (Hr0 : (0 < r)%Q).
  { rewrite Hr. apply Qmult_lt_0_compat; assumption. }
  destruct (b64_bounds r ltac:(lra)) as [Hq1 Hq2].
  set (q := b64 r) in *.
  assert (Hq0 : (0 <= q)%Q) by (apply b64_nonneg; lra).
  assert (Hx0 : (0 <= inject_Z t * q)%Q)
    by (apply Qmult_le_0_compat; lra).
  destruct (b64_bounds (inject_Z t * q)%Q Hx0) as [Hp1 Hp2].
  set (p := b64 (inject_Z t * q)) in *.
  (* the exact value *)
  set (e := (inject_Z t * r)%Q).
  assert (He : (e == inject_Z (t * w) * g)%Q).
  { unfold e. rewrite Hr, inject_Z_mult. ring. }
  assert (HeN : (e == inject_Z N + inject_Z rem * g)%Q).
  { rewrite He, Hdm, inject_Z_plus, inject_Z_mult.
    rewrite Qmult_plus_distr_l.
    assert (E : (inject_Z h * inject_Z N * g == inject_Z N * (g * inject_Z h))%Q)
      by ring.
    rewrite E, Hgh. ring. }
  assert (Hsm : (inject_Z (t * w) <= inject_Z (2 ^ 51 - 1))%Q)
    by (rewrite <- Zle_Qle; lia).
  change (inject_Z (2 ^ 51 - 1)) with (2251799813685247 # 1)%Q in Hsm.
  assert (Htw0 : (0 < inject_Z (t * w))%Q).
  { change 0%Q with (inject_Z 0). rewrite <- Zlt_Qlt. lia. }
  assert (Hue : (e * u64 * 4 <= g)%Q).
  { rewrite He. unfold u64.
    assert (inject_Z (t * w) * (1 # 9007199254740992) * 4 <= 1)%Q by lra.
    assert (E : (inject_Z (t * w) * g * (1 # 9007199254740992) * 4
                 == (inject_Z (t * w) * (1 # 9007199254740992) * 4) * g)%Q)
      by ring.
    rewrite E. rewrite <- (Qmult_1_l g) at 2.
    apply Qmult_le_compat_r; lra. }
  assert (He0 : (0 < e)%Q).
  { rewrite He. apply Qmult_lt_0_compat; assumption. }
  (* p is within 3/4 g of e *)
  assert (Hu0 : (0 < u64)%Q) by reflexivity.
  assert (Hu1 : (u64 <= 1)%Q) by discriminate.
  assert (Hxe1 : (e * (1 - u64) <= inject_Z t * q)%Q).
  { unfold e. rewrite <- Qmult_assoc. apply Qmult_le_l; [exact Htq | exact Hq1]. }
  assert (Hxe2 : (inject_Z t * q <= e * (1 + u64))%Q).
  { unfold e. rewrite <- Qmult_assoc. apply Qmult_le_l; [exact Htq | exact Hq2]. }
  assert (Hlow : (e - e * u64 * 2 <= p)%Q).
  { assert ((e * (1 - u64)) * (1 - u64) <= inject_Z t * q * (1 - u64))%Q
      by (apply Qmult_le_compat_r; lra).
    assert (0 <= e * u64 * u64)%Q
      by (apply Qmult_le_0_compat; [apply Qmult_le_0_compat |]; lra).
    lra. }
  assert (Hhigh : (p <= e + e * u64 * 3)%Q).
  { assert (inject_Z t * q * (1 + u64) <= (e * (1 + u64)) * (1 + u64))%Q
      by (apply Qmult_le_compat_r; lra).
    assert (e * u64 * u64 <= e * u64 * 1)%Q
      by (apply Qmult_le_l; [apply Qmult_lt_0_compat; lra | lra]).
    lra. }
  fold q. fold p.
  destruct (Z.eq_dec rem 0) as [Hz | Hnz].
  - (* the exact value is the integer N *)
    rewrite Hz in HeN. change (inject_Z 0) with 0%Q in HeN.
    assert (HN1 : 1 <= N) by nia.
    assert (Hg1 : (g <= 1)%Q).
    { rewrite <- Hgh. rewrite <- (Qmult_1_r g) at 1.
      apply Qmult_le_l; [exact Hg |].
      change 1%Q with (inject_Z 1). rewrite <- Zle_Qle. lia. }
    destruct (Qlt_le_dec p (inject_Z N)) as [Hbelow | Habove].
    + right. split; [exact Hz |].
      apply Qint_between; [lia | |].
      * rewrite inject_Z_minus. change (inject_Z 1) with 1%Q. lra.
      * replace (N - 1 + 1) with N by lia. exact Hbelow.
    + left. apply Qint_between; [lia | exact Habove |].
      rewrite inject_Z_plus. change (inject_Z 1) with 1%Q. lra.
  - (* the exact value is at least 1/h away from any integer *)
    left.
    assert (Hrg1 : (g <= inject_Z rem * g)%Q).
    { rewrite <- (Qmult_1_l g) at 1. apply Qmult_le_compat_r; [| lra].
      change 1%Q with (inject_Z 1). rewrite <- Zle_Qle. lia. }
    assert (Hrg2 : (inject_Z rem * g <= 1 - g)%Q).
    { assert (inject_Z rem * g <= inject_Z (h - 1) * g)%Q.
      { apply Qmult_le_compat_r; [| lra]. rewrite <- Zle_Qle. lia. }
      rewrite inject_Z_minus in H. change (inject_Z 1) with 1%Q in H.
      lra. }
    apply Qint_between; [exact HN | lra |].
    rewrite inject_Z_plus. change (inject_Z 1) with 1%Q. lra.
Qed.

(** Far from overflow the size computation does not raise. *)
Lemma scaled_size_value (t w h : Z) :
  0 < t -> 0 < w -> 0 < h -> t * w < 2 ^ 51 ->
  scaled_size (w, h) t
  = Ok (Qint (b64 (inject_Z t * b64 (inject_Z w / inject_Z h))), t).
Proof.
  intros Ht Hw Hh Hsmall. unfold scaled_size.
  destruct (Z.eqb_spec h 0) as [E | _]; [lia |].
  set (r := (inject_Z w / inject_Z h)%Q).
  assert (Hhq : (1 <= inject_Z h)%Q).
  { change 1%Q with (inject_Z 1). rewrite <- Zle_Qle. lia. }
  assert (Hwq : (0 < inject_Z w)%Q).
  { change 0%Q with (inject_Z 0). now rewrite <- Zlt_Qlt. }
  assert (Htq : (0 < inject_Z t)%Q).
  { change 0%Q with (inject_Z 0). now rewrite <- Zlt_Qlt. }
  assert (Hg : (0 < / inject_Z h)%Q) by (apply Qinv_lt_0_compat; lra).
  assert (Hg1 : (/ inject_Z h <= 1)%Q).
  { apply Qle_shift_inv_r; lra. }
  assert (Hr0 : (0 <= r)%Q).
  { unfold r, Qdiv. apply Qmult_le_0_compat; lra. }
  assert (Hrw : (r <= inject_Z w)%Q).
  { unfold r, Qdiv. rewrite <- (Qmult_1_r (inject_Z w)) at 2.
    rewrite (Qmult_comm (inject_Z w) (/ inject_Z h)),
      (Qmult_comm (inject_Z w) 1).
    apply Qmult_le_compat_r; lra. }
  assert (Hbig : (inject_Z (2 ^ 53) <= inject_Z (2 ^ 1023))%Q).
  { rewrite <- Zle_Qle. apply Z.pow_le_mono_r; lia. }
  assert (Htw : (inject_Z t * inject_Z w <= inject_Z (2 ^ 51))%Q).
  { rewrite <- inject_Z_mult, <- Zle_Qle. lia. }
  assert (Hw51 : (inject_Z w <= inject_Z (2 ^ 51))%Q).
  { rewrite <- Zle_Qle. nia. }
  change (inject_Z (2 ^ 53)) with (9007199254740992 # 1)%Q in Hbig.
  change (inject_Z (2 ^ 51)) with (2251799813685248 # 1)%Q in Htw, Hw51.
  rewrite fl_finite by (rewrite Qabs_pos by exact Hr0; lra).
  unfold float_of_int.
  destruct (Z.ltb_spec (Z.abs t) (2 ^ 53)) as [_ | Habs]; [| nia].
  destruct (b64_bounds r Hr0) as [_ Hq2].
  assert (Hq0 : (0 <= b64 r)%Q) by (now apply b64_nonneg).
  assert (Hp0 : (0 <= inject_Z t * b64 r)%Q)
    by (apply Qmult_le_0_compat; lra).
  assert (Hp1 : (inject_Z t * b64 r <= inject_Z t * inject_Z w * 2)%Q).
  { rewrite <- Qmult_assoc. apply Qmult_le_l; [exact Htq |].
    assert (r * (1 + u64) <= r * 2)%Q.
    { rewrite (Qmult_comm r (1 + u64)), (Qmult_comm r 2).
      apply Qmult_le_compat_r; [unfold u64; lra | exact Hr0]. }
    lra. }
  rewrite fl_finite by (rewrite Qabs_pos by exact Hp0; lra).
  reflexivity.
Qed.

(** C2.  For a positive target height and a source that opens with a
    positive size (far from overflow: [target_height * w0 < 2 ^ 51]) and
    whose resize at the computed size does not raise, [scale_image] returns
    an image, logging nothing; its height is the target height and its width
    is [int(target_height * (w0 / h0))] in double precision.  That width is
    the floor of the exact value [target_height * w0 / h0], except that it
    may be one less when the exact value is an integer. *)
Theorem scale_image_size :
  forall (Image_open : string -> result Image)
         (resample : Image -> Z * Z -> result Array)
         (image_path : string) (target_height : Z) (img : Image) (w0 h0 : Z),
    0 < target_height ->
    Image_open image_path = Ok img ->
    im_size img = (w0, h0) ->
    0 < w0 -> 0 < h0 ->
    target_height * w0 < 2 ^ 51 ->
    (forall size,
        scaled_size (im_size img) target_height = Ok size ->
        is_raise (resample img size) = false) ->
    exists scaled,
      scale_image Image_open resample image_path target_height
      = (Some scaled, [])
      /\ snd (im_size scaled) = target_height
      /\ fst (im_size scaled)
         = Qint (b64 (inject_Z target_height
                      * b64 (inject_Z w0 / inject_Z h0)))
      /\ (fst (im_size scaled) = target_height * w0 / h0
          \/ ((target_height * w0) mod h0 = 0
              /\ fst (im_size scaled) = target_height * w0 / h0 - 1)).
Proof.
  intros Image_open resample path target img w0 h0 Ht Hopen Hsize Hw Hh
    Hsmall Hres.
  pose proof (scaled_size_value target w0 h0 Ht Hw Hh Hsmall) as Hs.
  unfold scale_image, scale_image_try. rewrite Hopen, Hsize, Hs.
  rewrite Hsize in Hres. specialize (Hres _ Hs).
  unfold Image_resize. destruct (resample img _) as [d | e];
    [| discriminate].
  eexists. split; [reflexivity |]. cbn [im_size fst snd].
  split; [reflexivity |]. split; [reflexivity |].
  now apply scaled_width.
Qed.

Lemma scale_image_size_witness :
  exists scaled,
    scale_image sample_open strict_resample "karakter/karaktercowok1.png" 400
    = (Some scaled, [])
    /\ snd (im_size scaled) = 400
    /\ fst (im_size scaled)
       = Qint (b64 (inject_Z 400 * b64 (inject_Z 7 / inject_Z 4)))
    /\ (fst (im_size scaled) = 400 * 7 / 4
        \/ ((400 * 7) mod 4 = 0
            /\ fst (im_size scaled) = 400 * 7 / 4 - 1)).
Proof.
  apply (scale_image_size sample_open strict_resample
           "karakter/karaktercowok1.png" 400
           {| im_size := (7, 4); im_data := [[[255; 255; 255; 255]]] |} 7 4).
  - lia.
  - reflexivity.
  - reflexivity.
  - lia.
  - lia.
  - reflexivity.
  - intros size H. vm_compute in H. injection H as <-. reflexivity.
Defined.

(** C2, counterexample.  A 7 x 4 picture scaled to height 5 gets width 8,
    where [round(5 * 7 / 4)] is 9; and a 460 x 100 picture scaled to height
    400 gets width 1839, where the exact value 1840 is an integer: the
    double nearest to 4.6 lies below it. *)
Lemma scale_image_rounds_counterexample :
  (exists scaled,
      scale_image sample_open strict_resample "karakter/karaktercowok1.png" 5
      = (Some scaled, [])
      /\ fst (im_size scaled) = 8
      /\ Qround_half_even (inject_Z 5 * inject_Z 7 / inject_Z 4) = 9)
  /\ (exists scaled,
         scale_image banner_open strict_resample
           "karakter/karaktercowok1.png" 400
         = (Some scaled, [])
         /\ fst (im_size scaled) = 1839
         /\ Qround_half_even (inject_Z 400 * inject_Z 460 / inject_Z 100)
            = 1840).
Proof.
  split; eexists; (split; [vm_compute; reflexivity |]);
    split; vm_compute; reflexivity.
Qed.


(** ** Scaling failures *)

(** Reading the size of an absent sprite raises before anything is drawn. *)
Lemma call_absent_sprite
    (truetype_loads : Z -> bool) (textbbox_width : Font -> string -> Z)
    (multiline_textbbox : Font -> string -> Z * Z * Z * Z)
    (rasterize : Z -> Z -> list draw_op -> Array)
    (paste_pixels : Image -> Image -> Z * Z -> Image -> result Array)
    (np_sin : Q -> Q) (c : DialogClip) (t : Q) (h : heap) :
  char1 c = None \/ char2 c = None ->
  fst (DialogClip_call truetype_loads textbbox_width multiline_textbbox
         rasterize paste_pixels np_sin c t h) = Raise AttributeError.
Proof.
  unfold DialogClip_call, bind, Image_copy, alloc, raise.
  intros [H | H]; rewrite H; [reflexivity |].
  destruct (char1 c); reflexivity.
Qed.

(** Whatever raises inside the [try] block is logged and turned into
    [None]. *)
Lemma scale_image_failure
    (Image_open : string -> result Image)
    (resample : Image -> Z * Z -> result Array)
    (path : string) (target_height : Z) (e : exn) :
  (Image_open path = Raise e
   \/ exists img,
        Image_open path = Ok img
        /\ (scaled_size (im_size img) target_height = Raise e
            \/ exists size,
                 scaled_size (im_size img) target_height = Ok size
                 /\ resample img size = Raise e)) ->
  scale_image Image_open resample path target_height
  = (None, [LogError "Error scaling image: " e]).
Proof.
  unfold scale_image, scale_image_try, Image_resize.
  intros [H | [img [H [Hs | [size [Hs Hr]]]]]]; rewrite H;
    [reflexivity | now rewrite Hs | now rewrite Hs, Hr].
Qed.

(** C7.  When opening the picture raises, or the size computation raises,
    or the resize at the computed size raises, [scale_image] logs the error
    and returns [None]; the character then holds no scaled image, and the
    render function of any clip given that sprite, in either slot, raises
    [AttributeError] at every time and in every store instead of returning
    a frame. *)
Theorem scale_failure_reaches_compositor :
  forall (Image_open : string -> result Image)
         (resample : Image -> Z * Z -> result Array)
         (truetype_loads : Z -> bool)
         (textbbox_width : Font -> string -> Z)
         (multiline_textbbox : Font -> string -> Z * Z * Z * Z)
         (rasterize : Z -> Z -> list draw_op -> Array)
         (paste_pixels : Image -> Image -> Z * Z -> Image -> result Array)
         (np_sin : Q -> Q)
         (self : Character) (target_height : Z) (e : exn) (h : heap),
    (Image_open (image_path self) = Raise e
     \/ exists img,
          Image_open (image_path self) = Ok img
          /\ (scaled_size (im_size img) target_height = Raise e
              \/ exists size,
                   scaled_size (im_size img) target_height = Ok size
                   /\ resample img size = Raise e)) ->
    scale_image Image_open resample (image_path self) target_height
    = (None, [LogError "Error scaling image: " e])
    /\ exists self',
         Character_scale_image Image_open resample self target_height h
         = (Ok (self', [LogError "Error scaling image: " e]), h)
         /\ scaled_image self' = None
         /\ forall (background : ref) (other : option ref) (text : string)
                   (speaking_char : Z) (duration t : Q) (h' : heap),
              fst (DialogClip_call truetype_loads textbbox_width
                     multiline_textbbox rasterize paste_pixels np_sin
                     (DialogClip_init background (scaled_image self') other
                        text speaking_char duration) t h')
              = Raise AttributeError
              /\ fst (DialogClip_call truetype_loads textbbox_width
                        multiline_textbbox rasterize paste_pixels np_sin
                        (DialogClip_init background other (scaled_image self')
                           text speaking_char duration) t h')
                 = Raise AttributeError.
Proof.
  intros Image_open resample tl tw mb rz pp sn self target e h Hfail.
  pose proof (scale_image_failure Image_open resample (image_path self)
                target e Hfail) as Hs.
  split; [exact Hs |].
  unfold Character_scale_image. rewrite Hs.
  eexists. split; [reflexivity |]. cbn [scaled_image].
  split; [reflexivity |].
  intros bg other txt sp d t h'. split; apply call_absent_sprite.
  - left. reflexivity.
  - right. reflexivity.
Qed.

Lemma scale_failure_reaches_compositor_witness :
  (* a 1 x 1000 picture at height 400: the computed width is 0 and the
     resize raises *)
  (scale_image sliver_open strict_resample (image_path host_init) 400
   = (None, [LogError "Error scaling image: " ValueError])
   /\ exists self',
        Character_scale_image sliver_open strict_resample host_init 400 []
        = (Ok (self', [LogError "Error scaling image: " ValueError]), [])
        /\ scaled_image self' = None
        /\ forall (background : ref) (other : option ref) (text : string)
                  (speaking_char : Z) (duration t : Q) (h' : heap),
             fst (DialogClip_call (fun _ => true) sample_width sample_bbox
                    sample_rasterize sample_paste sample_sin
                    (DialogClip_init background (scaled_image self') other
                       text speaking_char duration) t h')
             = Raise AttributeError
             /\ fst (DialogClip_call (fun _ => true) sample_width sample_bbox
                       sample_rasterize sample_paste sample_sin
                       (DialogClip_init background other (scaled_image self')
                          text speaking_char duration) t h')
                = Raise AttributeError)
  (* a picture that cannot be opened *)
  /\ (scale_image missing_open strict_resample (image_path maya_init) 400
      = (None, [LogError "Error scaling image: " OSError])
      /\ exists self',
           Character_scale_image missing_open strict_resample maya_init 400 []
           = (Ok (self', [LogError "Error scaling image: " OSError]), [])
           /\ scaled_image self' = None
           /\ forall (background : ref) (other : option ref) (text : string)
                     (speaking_char : Z) (duration t : Q) (h' : heap),
                fst (DialogClip_call (fun _ => true) sample_width sample_bbox
                       sample_rasterize sample_paste sample_sin
                       (DialogClip_init background (scaled_image self') other
                          text speaking_char duration) t h')
                = Raise AttributeError
                /\ fst (DialogClip_call (fun _ => true) sample_width
                          sample_bbox sample_rasterize sample_paste sample_sin
                          (DialogClip_init background other
                             (scaled_image self') text speaking_char duration)
                          t h')
                   = Raise AttributeError).
Proof.
  split.
  - apply (scale_failure_reaches_compositor sliver_open strict_resample
             (fun _ => true) sample_width sample_bbox sample_rasterize
             sample_paste sample_sin host_init 400 ValueError []).
    right. exists {| im_size := (1, 1000); im_data := [[[255; 255; 255; 255]]] |}.
    split; [reflexivity |]. right. exists (0, 400).
    split; vm_compute; reflexivity.
  - apply (scale_failure_reaches_compositor missing_open strict_resample
             (fun _ => true) sample_width sample_bbox sample_rasterize
             sample_paste sample_sin maya_init 400 OSError []).
    left. reflexivity.
Defined.

(** ** Font fallback *)

(** Past size 20 the loop loads the TrueType face again, outside any [try]:
    when that load fails the loop raises, whatever happened at line 102. *)
Lemma shrink_loop_raises :
  forall (truetype_loads : Z -> bool) (textbbox_width : Font -> string -> Z)
         (text : string) (max_width : Z) (v : shrink_vars),
    20 < current_fontsize v ->
    truetype_loads (current_fontsize v) = false ->
    shrink_loop truetype_loads textbbox_width text max_width v = Raise OSError.
Proof.
  intros tl tw text mw v Hbig Hload. simp shrink_loop.
  destruct (Z_lt_dec 20 (current_fontsize v)) as [Hlt | Hle]; [| lia].
  cbn. unfold ImageFont_truetype. rewrite Hload. reflexivity.
Qed.

Lemma subtitle_raises_without_font :
  forall (truetype_loads : Z -> bool)
         (textbbox_width : Font -> string -> Z)
         (multiline_textbbox : Font -> string -> Z * Z * Z * Z)
         (rasterize : Z -> Z -> list draw_op -> Array)
         (w h : Z) (text : string) (fontsize : Z),
    20 < fontsize ->
    truetype_loads fontsize = false ->
    create_subtitle_mask truetype_loads textbbox_width multiline_textbbox
      rasterize w h text fontsize = Raise OSError.
Proof.
  intros tl tw mb rz w h text fontsize Hbig Hload.
  unfold create_subtitle_mask, fit_text.
  now rewrite shrink_loop_raises.
Qed.

(** C3, evaluated where it fails.  Without the font file, the subtitle of a
    1920 x 1080 frame at the default size 48 is not drawn with the built-in
    font: the call raises [OSError]. *)
Theorem font_fallback_lost :
  create_subtitle_mask (fun _ => false) sample_width sample_bbox
    sample_rasterize 1920 1080 "Halo semua!" 48 = Raise OSError.
Proof.
  apply subtitle_raises_without_font; [lia | reflexivity].
Qed.

(** ** Shrink loop *)

Section ShrinkFacts.

Variable truetype_loads : Z -> bool.
Variable textbbox_width : Font -> string -> Z.
Hypothesis Hloads : forall s, 20 < s -> truetype_loads s = true.

(** What the loop returns from the variables [v], when the font loads. *)
Lemma shrink_loop_exit (text : string) (max_width : Z) (v : shrink_vars) :
  exists v',
    shrink_loop truetype_loads textbbox_width text max_width v = Ok v'
    /\ (exists extra,
          tried v' = (tried v ++ extra)%list
          /\ Z.of_nat (List.length extra)
             <= Z.max 0 ((current_fontsize v - 19) / 2))
    /\ Z.odd (current_fontsize v') = Z.odd (current_fontsize v)
    /\ (current_fontsize v <= 20 -> v' = v)
    /\ (20 < current_fontsize v ->
        (List.length (wrapped_lines v') <= 3)%nat
        \/ (19 <= current_fontsize v' <= 20
            /\ font v' = TrueType (current_fontsize v' + 2)
            /\ wrapped_lines v'
               = wrap_text (textbbox_width (font v')) max_width text
            /\ last (tried v') 0 = current_fontsize v' + 2)).
Proof.
  funelim (shrink_loop truetype_loads textbbox_width text max_width v).
  - (* the loop test fails *)
    exists v. split; [reflexivity |].
    split; [| split; [reflexivity | split; [reflexivity | lia]]].
    exists []. rewrite app_nil_r. split; [reflexivity | simpl; lia].
  - (* the font does not load: excluded *)
    unfold ImageFont_truetype in *.
    rewrite Hloads in * by assumption. discriminate.
  - (* the wrap fits: break *)
    eexists. split; [reflexivity |].
    cbn [tried current_fontsize wrapped_lines].
    split; [| split; [reflexivity | split; [lia |]]].
    + exists [current_fontsize v]. split; [reflexivity |].
      cbn [List.length].
      pose proof (Z.div_le_lower_bound (current_fontsize v - 19) 2 1). lia.
    + intros _. left. now apply Nat.leb_le.
  - (* the wrap does not fit: shrink and go round again *)
    match goal with
    | IH : exists _, shrink_loop _ _ _ _ _ = Ok _ /\ _ |- _ =>
        destruct IH as [v' [Hrun [[extra [Htried Hlen]] [Hodd [Hstop Hgo]]]]]
    end.
    cbn [tried current_fontsize] in Htried, Hlen, Hodd, Hstop, Hgo.
    assert (Hf : f = TrueType (current_fontsize v)).
    { unfold ImageFont_truetype in *.
      rewrite Hloads in * by assumption. congruence. }
    exists v'. split; [exact Hrun |].
    split; [| split; [| split; [lia |]]].
    + exists (current_fontsize v :: extra). split.
      * rewrite Htried, <- app_assoc. reflexivity.
      * cbn [List.length]. rewrite Nat2Z.inj_succ.
        replace (current_fontsize v - 19)
          with (current_fontsize v - 2 - 19 + 1 * 2) by lia.
        rewrite Z.div_add by lia.
        pose proof (Z.div_pos (current_fontsize v - 2 - 19) 2). lia.
    + rewrite Hodd, Z.odd_sub. simpl. now rewrite xorb_false_r.
    + intros _.
      destruct (Z_le_gt_dec (current_fontsize v - 2) 20) as [Hle | Hgt].
      * right. rewrite (Hstop Hle).
        cbn [current_fontsize font wrapped_lines tried].
        rewrite last_last, Hf.
        repeat split; try lia. f_equal. lia.
      * apply Hgo. lia.
Qed.

End ShrinkFacts.

(** C1, as the code has it.  From an initial size of at least 20, with a
    font file that loads, the shrink loop returns after at most
    [(initial - 20) / 2 + 1] wraps.  On return either the accepted wrap has
    at most three lines, or the size counter has reached 20 (19 from an odd
    initial size) while the accepted wrap and the font kept for drawing are
    those of the last size tried, two above the counter: no wrap is ever
    computed at size 20. *)
Theorem shrink_loop_terminates :
  forall (truetype_loads : Z -> bool) (textbbox_width : Font -> string -> Z)
         (w : Z) (text : string) (fontsize : Z),
    20 <= fontsize ->
    (forall s, 20 < s -> truetype_loads s = true) ->
    exists v,
      fit_text truetype_loads textbbox_width w text fontsize = Ok v
      /\ Z.of_nat (List.length (tried v)) <= (fontsize - 20) / 2 + 1
      /\ ((List.length (wrapped_lines v) <= 3)%nat
          \/ (current_fontsize v = (if Z.odd fontsize then 19 else 20)
              /\ font v = TrueType (current_fontsize v + 2)
              /\ wrapped_lines v
                 = wrap_text (textbbox_width (font v)) (w - 100) text
              /\ last (tried v) 0 = current_fontsize v + 2)).
Proof.
  intros tl tw w text fontsize Hmin Hloads. unfold fit_text.
  destruct (shrink_loop_exit tl tw Hloads text (w - 100)
              {| current_fontsize := fontsize;
                 font := initial_font tl fontsize;
                 wrapped_lines := [];
                 tried := [] |})
    as [v [Hrun [[extra [Htried Hlen]] [Hodd [Hstop Hgo]]]]].
  cbn [tried current_fontsize app] in Htried, Hlen, Hodd, Hstop, Hgo.
  exists v. split; [exact Hrun |]. split.
  - rewrite Htried.
    replace (fontsize - 19) with (fontsize - 20 + 1) in Hlen by lia.
    pose proof (Z.div_le_mono (fontsize - 20 + 1) (fontsize - 20 + 1 * 2) 2).
    rewrite Z.div_add in * by lia.
    pose proof (Z.div_pos (fontsize - 20) 2). lia.
  - destruct (Z_le_gt_dec fontsize 20) as [Hle | Hgt].
    + left. rewrite (Hstop Hle). simpl. lia.
    + destruct (Hgo ltac:(lia)) as [Hfit | [Hcur [Hfont [Hwrap Hlast]]]].
      * now left.
      * right. repeat split; try assumption.
        rewrite <- Hodd.
        assert (Hcases : current_fontsize v = 19 \/ current_fontsize v = 20)
          by lia.
        destruct Hcases as [-> | ->]; reflexivity.
Qed.

Lemma shrink_loop_terminates_witness :
  exists v,
    fit_text (fun _ => true) sample_width 1920 long_text 48 = Ok v
    /\ Z.of_nat (List.length (tried v)) <= (48 - 20) / 2 + 1
    /\ ((List.length (wrapped_lines v) <= 3)%nat
        \/ (current_fontsize v = (if Z.odd 48 then 19 else 20)
            /\ font v = TrueType (current_fontsize v + 2)
            /\ wrapped_lines v
               = wrap_text (sample_width (font v)) (1920 - 100) long_text
            /\ last (tried v) 0 = current_fontsize v + 2)).
Proof.
  apply (shrink_loop_terminates (fun _ => true) sample_width 1920 long_text 48).
  - lia.
  - reflexivity.
Defined.

(** C1 as stated fails: sixty words do not fit three lines at any size from
    48 down to 22, so the loop stops with the counter at 20 and accepts the
    four-line wrap made at size 22, which is also the font drawn with. *)
Lemma shrink_loop_floor_counterexample :
  exists v,
    fit_text (fun _ => true) sample_width 1920 long_text 48 = Ok v
    /\ List.length (wrapped_lines v) = 4%nat
    /\ font v = TrueType 22
    /\ last (tried v) 0 = 22
    /\ ~ ((List.length (wrapped_lines v) <= 3)%nat \/ font v = TrueType 20).
Proof.
  eexists. split; [vm_compute; reflexivity |].
  cbn [wrapped_lines font tried].
  repeat split; try reflexivity.
  intros [H | H]; [vm_compute in H; lia | discriminate].
Qed.


(** ** Shake offset *)





(** ** Compositor determinism *)

Lemma load_app_l (h ext : heap) (r : ref) :
  (r < List.length h)%nat -> load (h ++ ext)%list r = load h r.
Proof. intros H. unfold load. now apply app_nth1. Qed.

Lemma load_fresh (h : heap) (v : Image) :
  load (h ++ [v])%list (List.length h) = v.
Proof. unfold load. rewrite app_nth2, Nat.sub_diag by lia. reflexivity. Qed.

Lemma store_fresh (h : heap) (v v' : Image) :
  store (h ++ [v])%list (List.length h) v' = (h ++ [v'])%list.
Proof. induction h as [|x h IH]; simpl; [reflexivity | now rewrite IH]. Qed.

Section CompositorFacts.

Variable truetype_loads : Z -> bool.
Variable textbbox_width : Font -> string -> Z.
Variable multiline_textbbox : Font -> string -> Z * Z * Z * Z.
Variable rasterize : Z -> Z -> list draw_op -> Array.
Variable paste_pixels : Image -> Image -> Z * Z -> Image -> result Array.
Variable np_sin : Q -> Q.

Local Abbreviation call :=
  (DialogClip_call truetype_loads textbbox_width multiline_textbbox
     rasterize paste_pixels np_sin).

Local Abbreviation after :=
  (after_calls truetype_loads textbbox_width multiline_textbbox
     rasterize paste_pixels np_sin).

(** Pasting onto the object allocated last rewrites that object only, and
    only when the paste succeeds. *)
Lemma paste_fresh (h : heap) (v : Image) (im : ref) (box : Z * Z) :
  Image_paste paste_pixels (List.length h) im box im (h ++ [v])%list
  = match paste_pixels v (load (h ++ [v])%list im) box
            (load (h ++ [v])%list im) with
    | Ok d =>
        (Ok tt, (h ++ [ {| im_size := im_size v; im_data := d |} ])%list)
    | Raise e => (Raise e, (h ++ [v])%list)
    end.
Proof.
  unfold Image_paste. rewrite load_fresh.
  destruct (paste_pixels _ _ _ _); [rewrite store_fresh |]; reflexivity.
Qed.

(** A render call leaves every existing object as it was: all it does to
    the store is to add the frame it painted. *)
Lemma call_extends (c : DialogClip) (t : Q) (h : heap) :
  exists v, snd (call c t h) = (h ++ [v])%list.
Proof.
  unfold DialogClip_call, bind, Image_copy, alloc, raise, ret, lift, np_array.
  destruct (char1 c) as [c1|], (char2 c) as [c2|]; try (eexists; reflexivity).
  destruct (shake_offset np_sin t) as [offset|]; [| eexists; reflexivity].
  destruct (speaking_char c =? 1); rewrite paste_fresh;
    (destruct (paste_pixels _ _ _ _); [| eexists; reflexivity]);
    rewrite paste_fresh;
    (destruct (paste_pixels _ _ _ _); [| eexists; reflexivity]);
    (destruct (create_subtitle_mask _ _ _ _ _ _ _ _);
     [| eexists; reflexivity]);
    eexists; reflexivity.
Qed.

Lemma after_calls_extends (calls : list (DialogClip * Q)) : forall h,
  exists ext, after calls h = (h ++ ext)%list.
Proof.
  induction calls as [|[c t] calls IH]; intros h; simpl.
  - exists []. now rewrite app_nil_r.
  - destruct (call_extends c t h) as [v Hv]. rewrite Hv.
    destruct (IH (h ++ [v])%list) as [ext Hext].
    exists (v :: ext). rewrite Hext, <- app_assoc. reflexivity.
Qed.

(** The frame depends on the store only through the objects of the clip. *)
Lemma call_frame_indep (c : DialogClip) (t : Q) (h ext : heap) :
  clip_allocated h c = true ->
  fst (call c t (h ++ ext)%list) = fst (call c t h).
Proof.
  unfold clip_allocated. intros H.
  apply andb_prop in H as [H H2]. apply andb_prop in H as [Hb H1].
  apply Nat.ltb_lt in Hb.
  unfold DialogClip_call, bind, Image_copy, alloc, raise, ret, lift, np_array.
  destruct (char1 c) as [c1|], (char2 c) as [c2|]; try reflexivity.
  apply Nat.ltb_lt in H1, H2.
  destruct (shake_offset np_sin t) as [offset|]; [| reflexivity].
  assert (Hl : forall r v, (r < List.length h)%nat ->
            load ((h ++ ext) ++ [v])%list r = load h r).
  { intros r v Hr.
    rewrite (load_app_l (h ++ ext)%list) by (rewrite length_app; lia).
    now apply load_app_l. }
  assert (Hr : forall r v, (r < List.length h)%nat ->
            load (h ++ [v])%list r = load h r).
  { intros r v Hr. now apply load_app_l. }
  destruct (speaking_char c =? 1); rewrite !paste_fresh;
    rewrite !Hl, !Hr, (load_app_l h ext) by assumption;
    (destruct (paste_pixels _ _ _ _); [| reflexivity]);
    rewrite !paste_fresh; cbn [im_size];
    rewrite !Hl, !Hr by assumption;
    (destruct (paste_pixels _ _ _ _); [| reflexivity]);
    (destruct (create_subtitle_mask _ _ _ _ _ _ _ _); [| reflexivity]);
    rewrite !load_fresh; reflexivity.
Qed.

End CompositorFacts.

(** C6.  For a clip whose images are allocated, the outcome of the render
    function at a time [t] (the frame, pixel for pixel, or the error
    raised) is the same after any two histories of earlier render calls, on
    this clip or on others sharing its images, in any number and order; and
    the shared background object is never modified. *)
Theorem render_deterministic :
  forall (truetype_loads : Z -> bool)
         (textbbox_width : Font -> string -> Z)
         (multiline_textbbox : Font -> string -> Z * Z * Z * Z)
         (rasterize : Z -> Z -> list draw_op -> Array)
         (paste_pixels : Image -> Image -> Z * Z -> Image -> result Array)
         (np_sin : Q -> Q)
         (clip : DialogClip) (t : Q) (h : heap)
         (before before' : list (DialogClip * Q)),
    clip_allocated h clip = true ->
    fst (DialogClip_call truetype_loads textbbox_width multiline_textbbox
           rasterize paste_pixels np_sin clip t
           (after_calls truetype_loads textbbox_width multiline_textbbox
              rasterize paste_pixels np_sin before h))
    = fst (DialogClip_call truetype_loads textbbox_width multiline_textbbox
             rasterize paste_pixels np_sin clip t
             (after_calls truetype_loads textbbox_width multiline_textbbox
                rasterize paste_pixels np_sin before' h))
    /\ load (after_calls truetype_loads textbbox_width multiline_textbbox
               rasterize paste_pixels np_sin before h) (background clip)
       = load h (background clip).
Proof.
  intros tl tw mb rz pp sn clip t h before before' Hwf.
  destruct (after_calls_extends tl tw mb rz pp sn before h) as [ext ->].
  destruct (after_calls_extends tl tw mb rz pp sn before' h) as [ext' ->].
  split.
  - now rewrite !call_frame_indep.
  - apply load_app_l. unfold clip_allocated in Hwf.
    apply andb_prop in Hwf as [Hwf _]. apply andb_prop in Hwf as [Hb _].
    now apply Nat.ltb_lt.
Qed.

Lemma render_deterministic_witness :
  fst (DialogClip_call (fun _ => true) sample_width sample_bbox
         sample_rasterize sample_paste sample_sin sample_clip 0%Q
         (after_calls (fun _ => true) sample_width sample_bbox
            sample_rasterize sample_paste sample_sin [] sample_heap))
  = fst (DialogClip_call (fun _ => true) sample_width sample_bbox
           sample_rasterize sample_paste sample_sin sample_clip 0%Q
           (after_calls (fun _ => true) sample_width sample_bbox
              sample_rasterize sample_paste sample_sin
              [(sample_clip, 1%Q); (sample_clip, 0%Q)] sample_heap))
  /\ load (after_calls (fun _ => true) sample_width sample_bbox
             sample_rasterize sample_paste sample_sin [] sample_heap)
          (background sample_clip)
     = load sample_heap (background sample_clip).
Proof.
  apply (render_deterministic (fun _ => true) sample_width sample_bbox
           sample_rasterize sample_paste sample_sin sample_clip 0%Q
           sample_heap [] [(sample_clip, 1%Q); (sample_clip, 0%Q)]).
  reflexivity.
Defined.


(** ** Running sums of durations *)

Lemma b64_pos_value (q : Q) : (0 < q -> 0 < b64 q)%Q.
Proof.
  intros Hq. destruct (b64_bounds q ltac:(lra)) as [H _].
  assert (0 < q * (1 - u64))%Q; [| lra].
  apply Qmult_lt_0_compat; [exact Hq | unfold u64; lra].
Qed.

Lemma padded_pos (d : Q) : (0 <= d -> 0 < padded d)%Q.
Proof. intros Hd. apply b64_pos_value. lra. Qed.

Lemma maximum0_nonneg (x : Q) : (0 <= x)%Q -> maximum0 x = x.
Proof.
  intros H. unfold maximum0.
  destruct (Qle_bool 0 x) eqn:E; [reflexivity |].
  apply Qle_bool_iff in H. congruence.
Qed.

Lemma cumsum_from_length (l : list Q) : forall acc,
  List.length (cumsum_from acc l) = List.length l.
Proof. induction l; intros; simpl; [reflexivity | now rewrite IHl]. Qed.

Lemma cumsum_from_nth (l : list Q) : forall acc i,
  (i <= List.length l)%nat ->
  nth_error (acc :: cumsum_from acc l) i
  = Some (fold_left (fun a x => b64 (a + x)) (firstn i l) acc).
Proof.
  induction l as [|x l IH]; intros acc [|i] Hi; simpl in *;
    try reflexivity; try lia.
  apply (IH (b64 (acc + x)) i). lia.
Qed.

Lemma cumsum_from_last (l : list Q) : forall acc,
  last (acc :: cumsum_from acc l) 0%Q
  = fold_left (fun a x => b64 (a + x)) l acc.
Proof.
  induction l as [|x l IH]; intros acc; [reflexivity |].
  cbn [cumsum_from fold_left]. rewrite <- IH. reflexivity.
Qed.

Lemma cumsum_from_pos (l : list Q) : forall acc,
  (0 <= acc)%Q ->
  Forall (fun x => 0 < x)%Q l ->
  Forall (fun x => 0 < x)%Q (cumsum_from acc l).
Proof.
  induction l as [|x l IH]; intros acc Hacc Hl; [constructor |].
  inversion Hl as [|? ? Hx Hl']; subst. cbn [cumsum_from].
  assert (0 < b64 (acc + x))%Q by (apply b64_pos_value; lra).
  constructor; [assumption | apply IH; [lra | assumption]].
Qed.

(** With positive durations, clamping at 0 changes nothing. *)
Lemma cumsum0_clamped (l : list Q) :
  Forall (fun x => 0 < x)%Q l ->
  map maximum0 (cumsum0 l) = cumsum0 l.
Proof.
  intros Hl. unfold cumsum0. cbn [map]. f_equal.
  pose proof (cumsum_from_pos l 0%Q ltac:(lra) Hl) as Hp.
  induction Hp as [|y m Hy Hm IH]; [reflexivity |].
  cbn [map]. rewrite maximum0_nonneg by lra. now rewrite IH.
Qed.

(** With positive durations, time 0 falls in the first clip. *)
Lemma frame_index_first (l : list Q) :
  Forall (fun x => 0 < x)%Q l ->
  frame_index (cumsum0 l) 0%Q = Some 0%nat.
Proof.
  intros Hl. unfold frame_index, enumerate, cumsum0.
  cbn [List.length seq combine fold_left]. change (Qle_bool 0 0) with true.
  cbv iota. rewrite cumsum_from_length.
  pose proof (cumsum_from_pos l 0%Q ltac:(lra) Hl) as Hp.
  rewrite <- (cumsum_from_length l 0%Q).
  generalize 1%nat. induction Hp as [|y m Hy Hm IH]; intros k;
    [reflexivity |].
  cbn [List.length seq combine fold_left].
  destruct (Qle_bool y 0) eqn:E; [| apply IH].
  apply Qle_bool_iff in E. lra.
Qed.

(** The rounding error of a running sum of non-negative doubles. *)
Lemma Qpow_nonneg (x : Q) (n : nat) : (0 <= x -> 0 <= Qpow x n)%Q.
Proof.
  intros Hx. induction n; cbn [Qpow]; [lra |].
  now apply Qmult_le_0_compat.
Qed.

Lemma Qsum_nonneg (l : list Q) :
  Forall (fun x => 0 <= x)%Q l -> (0 <= Qsum l)%Q.
Proof.
  induction 1 as [|x l Hx Hl IH]; cbn [Qsum fold_right]; [lra |].
  fold (Qsum l). lra.
Qed.

Lemma fold_sum_bounds (l : list Q) : forall acc,
  (0 <= acc)%Q ->
  Forall (fun x => 0 <= x)%Q l ->
  ((acc + Qsum l) * Qpow (1 - u64) (List.length l)
   <= fold_left (fun a x => b64 (a + x)) l acc
   /\ fold_left (fun a x => b64 (a + x)) l acc
      <= (acc + Qsum l) * Qpow (1 + u64) (List.length l))%Q.
Proof.
  assert (Hu0 : (0 < u64)%Q) by reflexivity.
  assert (Hu1 : (u64 <= 1)%Q) by discriminate.
  induction l as [|x l IH]; intros acc Hacc Hl.
  - cbn. lra.
  - inversion Hl as [|? ? Hx Hl']; subst.
    cbn [fold_left List.length Qpow Qsum fold_right]. fold (Qsum l).
    pose proof (Qsum_nonneg l Hl') as Hs.
    destruct (b64_bounds (acc + x)%Q ltac:(lra)) as [Hb1 Hb2].
    assert (Hb0 : (0 <= b64 (acc + x))%Q) by (apply b64_nonneg; lra).
    destruct (IH (b64 (acc + x)) Hb0 Hl') as [IH1 IH2].
    pose proof (Qpow_nonneg (1 - u64) (List.length l) ltac:(lra)) as Hp1.
    pose proof (Qpow_nonneg (1 + u64) (List.length l) ltac:(lra)) as Hp2.
    set (P1 := Qpow (1 - u64) (List.length l)) in *.
    set (P2 := Qpow (1 + u64) (List.length l)) in *.
    set (r := fold_left (fun a x0 => b64 (a + x0)) l (b64 (acc + x))) in *.
    set (v := b64 (acc + x)) in *.
    split.
    + assert (((acc + (x + Qsum l)) * (1 - u64)) * P1 <= (v + Qsum l) * P1)%Q.
      { apply Qmult_le_compat_r; [| exact Hp1].
        assert (0 <= Qsum l * u64)%Q by (apply Qmult_le_0_compat; lra).
        lra. }
      lra.
    + assert ((v + Qsum l) * P2 <= ((acc + (x + Qsum l)) * (1 + u64)) * P2)%Q.
      { apply Qmult_le_compat_r; [| exact Hp2].
        assert (0 <= Qsum l * u64)%Q by (apply Qmult_le_0_compat; lra).
        lra. }
      lra.
Qed.

(** The padded durations against the exact ones. *)
Lemma Qsum_padded_bounds (ds : list Q) :
  Forall (fun d => 0 <= d)%Q ds ->
  (Qsum (map (fun d => d + (1 # 2)) ds) * (1 - u64) <= Qsum (map padded ds)
   /\ Qsum (map padded ds) <= Qsum (map (fun d => d + (1 # 2)) ds) * (1 + u64))%Q.
Proof.
  induction 1 as [|d ds Hd Hds IH]; cbn [map Qsum fold_right].
  - lra.
  - fold (Qsum (map padded ds)).
    fold (Qsum (map (fun d => d + (1 # 2))%Q ds)).
    destruct (b64_bounds (d + (1 # 2))%Q ltac:(lra)) as [H1 H2].
    fold (padded d) in H1, H2. lra.
Qed.

(** The double-precision sum of the padded durations lies within the
    factors [(1 - u64) ^ (n + 1)] and [(1 + u64) ^ (n + 1)] of the exact
    sum of the [d + 1/2]. *)
Lemma fsum_padded_bounds (ds : list Q) :
  Forall (fun d => 0 <= d)%Q ds ->
  (Qsum (map (fun d => d + (1 # 2)) ds) * Qpow (1 - u64) (S (List.length ds))
   <= fsum (map padded ds)
   /\ fsum (map padded ds)
      <= Qsum (map (fun d => d + (1 # 2)) ds)
         * Qpow (1 + u64) (S (List.length ds)))%Q.
Proof.
  intros Hds.
  assert (Hu0 : (0 < u64)%Q) by reflexivity.
  assert (Hu1 : (u64 <= 1)%Q) by discriminate.
  assert (Hp : Forall (fun x => 0 <= x)%Q (map padded ds)).
  { apply Forall_map. eapply Forall_impl; [| exact Hds].
    intros d Hd. cbv beta. pose proof (padded_pos d Hd). lra. }
  destruct (fold_sum_bounds (map padded ds) 0%Q ltac:(lra) Hp) as [F1 F2].
  destruct (Qsum_padded_bounds ds Hds) as [S1 S2].
  rewrite length_map in F1, F2. fold (fsum (map padded ds)) in F1, F2.
  pose proof (Qpow_nonneg (1 - u64) (List.length ds) ltac:(lra)) as Hp1.
  pose proof (Qpow_nonneg (1 + u64) (List.length ds) ltac:(lra)) as Hp2.
  cbn [Qpow].
  set (E := Qsum (map (fun d => d + (1 # 2))%Q ds)) in *.
  set (S := Qsum (map padded ds)) in *.
  set (P1 := Qpow (1 - u64) (List.length ds)) in *.
  set (P2 := Qpow (1 + u64) (List.length ds)) in *.
  split.
  - assert ((E * (1 - u64)) * P1 <= S * P1)%Q
      by (apply Qmult_le_compat_r; assumption).
    lra.
  - assert (S * P2 <= (E * (1 + u64)) * P2)%Q
      by (apply Qmult_le_compat_r; assumption).
    lra.
Qed.

(** One rounded addition is not the exact one: the double written [0.1]
    plus [0.5] is the double nearest to their sum, not the sum. *)
Lemma padded_rounds :
  padded d_01 = 5404319552844595 # 9007199254740992
  /\ ~ (padded d_01 == d_01 + (1 # 2))%Q.
Proof. split; [vm_compute; reflexivity | vm_compute; discriminate]. Qed.


(** ** Lists *)

Lemma is_host_speaking (i : nat) :
  is_host i = (speaking_char_at i =? 1).
Proof.
  unfold is_host, speaking_char_at.
  now destruct (existsb (Nat.eqb (i mod 4)) [0; 1]%nat).
Qed.

Lemma nth_error_combine {A B} (l : list A) : forall (m : list B) (i : nat),
  nth_error (combine l m) i
  = match nth_error l i, nth_error m i with
    | Some a, Some b => Some (a, b)
    | _, _ => None
    end.
Proof.
  induction l as [|a l IH]; intros [|b m] [|i]; simpl; try reflexivity.
  - now destruct (nth_error l i).
  - apply IH.
Qed.

Lemma nth_error_seq (start len i : nat) :
  (i < len)%nat -> nth_error (seq start len) i = Some (start + i)%nat.
Proof.
  revert start i. induction len as [|len IH]; intros start [|i] H;
    simpl; try lia.
  - now rewrite Nat.add_0_r.
  - rewrite IH by lia. f_equal. lia.
Qed.


(** ** Sequencer *)

Section SequencerFacts.

Variable AudioFileClip : string -> result AudioClip.
Variable truetype_loads : Z -> bool.
Variable textbbox_width : Font -> string -> Z.
Variable multiline_textbbox : Font -> string -> Z * Z * Z * Z.
Variable rasterize : Z -> Z -> list draw_op -> Array.
Variable paste_pixels : Image -> Image -> Z * Z -> Image -> result Array.
Variable np_sin : Q -> Q.
Variables (bg : ref) (host maya : Character).

Local Abbreviation call :=
  (DialogClip_call truetype_loads textbbox_width multiline_textbbox
     rasterize paste_pixels np_sin).

Local Abbreviation build :=
  (build_clips AudioFileClip truetype_loads textbbox_width multiline_textbbox
     rasterize paste_pixels np_sin bg host maya).

Local Abbreviation dialog_of i tx a :=
  (DialogClip_init bg (scaled_image host) (scaled_image maya) tx
     (speaking_char_at i) (padded (audio_duration a))).

Local Abbreviation items k ts :=
  (combine (seq k (List.length ts))
     (combine ts (map audio_file_name (seq k (List.length ts))))).

(** A render call that returns a frame in [h] returns it in any extension
    of [h], where it adds one object. *)
Lemma call_in_extension (c : DialogClip) (t : Q) (h ext : heap) :
  clip_allocated h c = true ->
  is_raise (fst (call c t h)) = false ->
  exists frame v,
    call c t (h ++ ext)%list = (Ok frame, ((h ++ ext) ++ [v])%list)
    /\ fst (call c t h) = Ok frame.
Proof.
  intros Hwf Hok.
  pose proof (call_frame_indep truetype_loads textbbox_width
                multiline_textbbox rasterize paste_pixels np_sin c t h ext Hwf)
    as Hf.
  destruct (call_extends truetype_loads textbbox_width multiline_textbbox
              rasterize paste_pixels np_sin c t (h ++ ext)%list) as [v Hv].
  destruct (call c t h) as [[frame | e] h1]; [| discriminate].
  destruct (call c t (h ++ ext)%list) as [r h2]. cbn [fst snd] in *.
  subst. exists frame, v. split; reflexivity.
Qed.

(** The clip loop, started at index [k], on tracks that all decode and
    lines whose first frame renders. *)
Lemma build_clips_ok (ts : list string) :
  forall (k : nat) (tracks : list AudioClip) (h ext : heap),
    List.length tracks = List.length ts ->
    (forall j a, nth_error tracks j = Some a ->
       AudioFileClip (audio_file_name (k + j)) = Ok a) ->
    clip_allocated h (dialog_of 0%nat "" {| audio_file := ""; audio_duration := 0 |})
    = true ->
    (forall j tx a,
       nth_error ts j = Some tx -> nth_error tracks j = Some a ->
       is_raise (fst (call (dialog_of (k + j)%nat tx a) 0%Q h)) = false) ->
    exists clips ext',
      build (items k ts) (h ++ ext)%list = (Ok clips, (h ++ ext')%list)
      /\ map make_frame clips
         = map (fun '(j, (tx, a)) => dialog_of j tx a)
               (combine (seq k (List.length ts)) (combine ts tracks))
      /\ map clip_duration clips
         = map (fun a => padded (audio_duration a)) tracks
      /\ map audio clips = map Some tracks.
Proof.
  induction ts as [|tx ts IH]; intros k tracks h ext Hlen Haud Hwf Hren.
  - destruct tracks; [| discriminate]. exists [], ext. repeat split.
  - destruct tracks as [|a tracks]; [discriminate |].
    pose proof (Haud 0%nat a eq_refl) as Ha. rewrite Nat.add_0_r in Ha.
    pose proof (Hren 0%nat tx a eq_refl eq_refl) as Hr.
    rewrite Nat.add_0_r in Hr.
    destruct (call_in_extension (dialog_of k tx a) 0%Q h ext Hwf Hr)
      as [frame [v [Hcall _]]].
    destruct (IH (S k) tracks h (ext ++ [v])%list) as [clips [ext' [Hb [H1 [H2 H3]]]]].
    { simpl in Hlen. lia. }
    { intros j a' Hj. rewrite Nat.add_succ_comm. now apply (Haud (S j)). }
    { exact Hwf. }
    { intros j tx' a' Ht Hj. rewrite Nat.add_succ_comm.
      now apply (Hren (S j)). }
    cbn [List.length seq map combine build_clips].
    unfold bind at 1, lift at 1. rewrite Ha.
    unfold bind at 1, VideoClip_init at 1, bind at 1.
    fold (padded (audio_duration a)). rewrite Hcall.
    unfold ret at 1. unfold bind at 1.
    rewrite <- app_assoc, Hb. unfold ret.
    eexists _, ext'. split; [reflexivity |].
    cbn [map make_frame clip_duration audio set_audio].
    now rewrite H1, H2, H3.
Qed.

(** Concatenation of clips of positive duration whose first clip renders. *)
Lemma concatenate_ok (c0 : VideoClip) (rest : list VideoClip)
    (h h' : heap) (frame : Array) :
  Forall (fun x => 0 < x)%Q (map clip_duration (c0 :: rest)) ->
  call (make_frame c0) 0%Q h = (Ok frame, h') ->
  concatenate_videoclips truetype_loads textbbox_width multiline_textbbox
    rasterize paste_pixels np_sin (c0 :: rest) h
  = (Ok {| segments :=
             combine (cumsum0 (map clip_duration (c0 :: rest))) (c0 :: rest);
           audio_starts :=
             flat_map (fun '(c, t) =>
                         match audio c with
                         | Some a => [(a, t)]
                         | None => []
                         end)
                      (combine (c0 :: rest)
                         (cumsum0 (map clip_duration (c0 :: rest))));
           timeline_duration :=
             last (cumsum0 (map clip_duration (c0 :: rest))) 0%Q |}, h').
Proof.
  intros Hpos Hcall. unfold concatenate_videoclips.
  rewrite (cumsum0_clamped _ Hpos), (frame_index_first _ Hpos).
  cbn [nth_error]. unfold cumsum0 at 1. cbn [nth].
  change (b64 (0 - 0)) with 0%Q.
  unfold bind, ret. rewrite Hcall. reflexivity.
Qed.

End SequencerFacts.

(** Every clip carries a track: the tracks start with their clips. *)
Lemma audio_starts_of (clips : list VideoClip) :
  forall (tracks : list AudioClip) (tt : list Q),
    map audio clips = map Some tracks ->
    flat_map (fun '(c, t) =>
                match audio c with
                | Some a => [(a, t)]
                | None => []
                end)
             (combine clips tt)
    = combine tracks tt.
Proof.
  induction clips as [|c cs IH]; intros [|a tr] tt H; try discriminate.
  - reflexivity.
  - destruct tt as [|t tt]; [reflexivity |].
    cbn [map] in H. injection H as Ha Hrest.
    cbn [combine flat_map]. rewrite Ha. cbn [app]. f_equal.
    now apply IH.
Qed.

Section SequencerRun.

Variable AudioFileClip : string -> result AudioClip.
Variable truetype_loads : Z -> bool.
Variable textbbox_width : Font -> string -> Z.
Variable multiline_textbbox : Font -> string -> Z * Z * Z * Z.
Variable rasterize : Z -> Z -> list draw_op -> Array.
Variable paste_pixels : Image -> Image -> Z * Z -> Image -> result Array.
Variable np_sin : Q -> Q.
Variables (bg : ref) (host maya : Character).
Variables (texts : list string) (tracks : list AudioClip) (h : heap).

Local Abbreviation call :=
  (DialogClip_call truetype_loads textbbox_width multiline_textbbox
     rasterize paste_pixels np_sin).

Local Abbreviation dialog_of i tx a :=
  (DialogClip_init bg (scaled_image host) (scaled_image maya) tx
     (speaking_char_at i) (padded (audio_duration a))).

(** The script is not empty and every line has a track that decodes, with
    a non-negative duration. *)
Hypothesis Hlines : texts <> [].
Hypothesis Hlen : List.length tracks = List.length texts.
Hypothesis Haudio : forall i a,
  nth_error tracks i = Some a ->
  AudioFileClip (audio_file_name i) = Ok a /\ (0 <= audio_duration a)%Q.
(** The images are objects of the store. *)
Hypothesis Hbg : (bg < List.length h)%nat.
Hypothesis Hhost : forall r, scaled_image host = Some r -> (r < List.length h)%nat.
Hypothesis Hmaya : forall r, scaled_image maya = Some r -> (r < List.length h)%nat.
Lemma images_allocated (tx : string) (sp : Z) (d : Q) :
  clip_allocated h
    (DialogClip_init bg (scaled_image host) (scaled_image maya) tx sp d)
  = true.
Proof.
  unfold clip_allocated. cbn [background char1 char2 DialogClip_init].
  apply andb_true_intro. split; [apply andb_true_intro; split |].
  - now apply Nat.ltb_lt.
  - destruct (scaled_image host) as [r|]; [| reflexivity].
    apply Nat.ltb_lt. now apply Hhost.
  - destruct (scaled_image maya) as [r|]; [| reflexivity].
    apply Nat.ltb_lt. now apply Hmaya.
Qed.

(** The first frame of every line renders. *)
Hypothesis Hrender : forall i tx a,
  nth_error texts i = Some tx -> nth_error tracks i = Some a ->
  is_raise (fst (call (dialog_of i tx a) 0%Q h)) = false.

(** The run of the clip loop and of the concatenation. *)
Lemma sequence_clips_run :
  exists clips h',
    sequence_clips AudioFileClip truetype_loads textbbox_width
      multiline_textbbox rasterize paste_pixels np_sin bg host maya texts h
    = (Ok {| segments := combine (cumsum0 (map clip_duration clips)) clips;
             audio_starts :=
               combine tracks (cumsum0 (map clip_duration clips));
             timeline_duration :=
               last (cumsum0 (map clip_duration clips)) 0%Q |}, h')
    /\ map make_frame clips
       = map (fun '(j, (tx, a)) => dialog_of j tx a)
             (combine (seq 0 (List.length texts)) (combine texts tracks))
    /\ map clip_duration clips
       = map (fun a => padded (audio_duration a)) tracks
    /\ map audio clips = map Some tracks.
Proof.
  destruct (build_clips_ok AudioFileClip truetype_loads textbbox_width
              multiline_textbbox rasterize paste_pixels np_sin bg host maya
              texts 0%nat tracks h [] Hlen)
    as [clips [ext' [Hb [H1 [H2 H3]]]]].
  { intros j a Hj. now apply Haudio. }
  { apply images_allocated. }
  { intros j tx a Ht Ha. now apply Hrender. }
  rewrite app_nil_r in Hb.
  unfold sequence_clips, enumerate.
  rewrite length_combine, length_map, length_seq, Nat.min_id.
  unfold bind. rewrite Hb.
  destruct texts as [|tx0 ts]; [contradiction |].
  destruct tracks as [|a0 tr]; [discriminate |].
  destruct clips as [|c0 rest]; [discriminate |].
  assert (Hpos : Forall (fun x => 0 < x)%Q (map clip_duration (c0 :: rest))).
  { rewrite H2. apply Forall_map. apply Forall_forall. intros a Ha.
    apply In_nth_error in Ha as [i Hi]. apply padded_pos.
    now apply (Haudio i a). }
  assert (Hf : make_frame c0 = dialog_of 0%nat tx0 a0) by now injection H1.
  destruct (call_in_extension truetype_loads textbbox_width
              multiline_textbbox rasterize paste_pixels np_sin
              (dialog_of 0%nat tx0 a0) 0%Q h ext'
              (images_allocated _ _ _) (Hrender 0%nat tx0 a0 eq_refl eq_refl))
    as [frame [v [Hcall _]]].
  rewrite <- Hf in Hcall.
  rewrite (concatenate_ok truetype_loads textbbox_width multiline_textbbox
             rasterize paste_pixels np_sin c0 rest _ _ frame Hpos Hcall).
  exists (c0 :: rest). eexists. split; [| now repeat split].
  do 3 f_equal. now apply audio_starts_of.
Qed.

End SequencerRun.

Lemma cumsum0_nth (l : list Q) (i : nat) :
  (i <= List.length l)%nat ->
  nth_error (cumsum0 l) i = Some (fsum (firstn i l)).
Proof. intros Hi. unfold cumsum0, fsum. now apply cumsum_from_nth. Qed.

Lemma cumsum0_last (l : list Q) : last (cumsum0 l) 0%Q = fsum l.
Proof. unfold cumsum0, fsum. apply cumsum_from_last. Qed.

(** A running sum continues from the previous one. *)
Lemma fsum_step (l : list Q) (i : nat) (x : Q) :
  nth_error l i = Some x ->
  fsum (firstn (S i) l) = b64 (fsum (firstn i l) + x).
Proof.
  intros Hx. unfold fsum.
  assert (E : firstn (S i) l = (firstn i l ++ [x])%list).
  { revert i Hx. induction l as [|y l IH]; intros [|i] Hx; simpl in Hx;
      try discriminate.
    - now injection Hx as ->.
    - cbn [firstn app]. f_equal. now apply IH. }
  rewrite E, fold_left_app. reflexivity.
Qed.

(** Clip [i] of a list built by the clip loop. *)
Lemma clip_at (bg : ref) (host maya : Character) (texts : list string)
    (tracks : list AudioClip) (clips : list VideoClip)
    (i : nat) (tx : string) (a : AudioClip) :
  map make_frame clips
  = map (fun '(j, (tx, a)) =>
           DialogClip_init bg (scaled_image host) (scaled_image maya) tx
             (speaking_char_at j) (padded (audio_duration a)))
        (combine (seq 0 (List.length texts)) (combine texts tracks)) ->
  map clip_duration clips = map (fun a => padded (audio_duration a)) tracks ->
  map audio clips = map Some tracks ->
  nth_error texts i = Some tx ->
  nth_error tracks i = Some a ->
  exists c,
    nth_error clips i = Some c
    /\ make_frame c
       = DialogClip_init bg (scaled_image host) (scaled_image maya) tx
           (speaking_char_at i) (padded (audio_duration a))
    /\ clip_duration c = padded (audio_duration a)
    /\ audio c = Some a.
Proof.
  intros H1 H2 H3 Ht Ha.
  assert (Hi : (i < List.length texts)%nat)
    by (apply nth_error_Some; congruence).
  pose proof (f_equal (fun l => nth_error l i) H1) as E1.
  pose proof (f_equal (fun l => nth_error l i) H2) as E2.
  pose proof (f_equal (fun l => nth_error l i) H3) as E3.
  cbv beta in E1, E2, E3.
  rewrite !nth_error_map in E1, E2, E3.
  rewrite !nth_error_combine, nth_error_seq, Ht, Ha in E1 by exact Hi.
  rewrite Ha in E2, E3.
  destruct (nth_error clips i) as [c|]; [| discriminate].
  cbn [option_map] in E1, E2, E3.
  exists c. split; [reflexivity |].
  injection E1 as E1. injection E2 as E2. injection E3 as E3.
  now repeat split.
Qed.

(** Request [i] of the first loop. *)
Lemma tts_calls_request (host maya : Character) (texts languages : list string)
    (i : nat) (tx lang : string) :
  nth_error texts i = Some tx ->
  nth_error languages i = Some lang ->
  nth_error (tts_calls host maya texts languages) i
  = Some (if (lang =? "id")%string
          then Gtts tx (audio_file_name i) "id"
          else PlayHT tx (audio_file_name i)
                 (voice_url (current_character host maya i))).
Proof.
  intros Ht Hl.
  assert (Hi : (i < List.length texts)%nat)
    by (apply nth_error_Some; congruence).
  assert (Hl' : (i < List.length languages)%nat)
    by (apply nth_error_Some; congruence).
  unfold tts_calls, enumerate.
  rewrite nth_error_map, !nth_error_combine, nth_error_map, Ht, Hl.
  rewrite !length_combine, length_map, !length_seq.
  rewrite !nth_error_seq by lia. reflexivity.
Qed.

(** C8.  For a non-empty script whose tracks decode with non-negative
    durations [d0 .. d(n-1)] and whose lines render, the sequencer returns a
    timeline of [n] clips in script order.  Clip [i] lasts [di + 0.5] (one
    double-precision addition, [padded]) and carries track [i]; clip and
    track start at the sum of the earlier [dj + 0.5], taken left to right in
    double precision ([fsum]); the next clip (or the end of the timeline)
    comes at that start plus the clip's duration, so there is no gap or
    overlap; the timeline lasts the sum of all the [di + 0.5].  Each of these
    sums of [i] terms lies within the factors [(1 - u64) ^ (i + 1)] and
    [(1 + u64) ^ (i + 1)] of the exact sum. *)
Theorem timeline_of_padded_durations :
  forall (AudioFileClip : string -> result AudioClip)
         (truetype_loads : Z -> bool)
         (textbbox_width : Font -> string -> Z)
         (multiline_textbbox : Font -> string -> Z * Z * Z * Z)
         (rasterize : Z -> Z -> list draw_op -> Array)
         (paste_pixels : Image -> Image -> Z * Z -> Image -> result Array)
         (np_sin : Q -> Q)
         (background : ref) (host maya : Character)
         (texts : list string) (tracks : list AudioClip) (h : heap),
    texts <> [] ->
    List.length tracks = List.length texts ->
    (forall i a,
        nth_error tracks i = Some a ->
        AudioFileClip (audio_file_name i) = Ok a
        /\ (0 <= audio_duration a)%Q) ->
    (background < List.length h)%nat ->
    (forall r, scaled_image host = Some r -> (r < List.length h)%nat) ->
    (forall r, scaled_image maya = Some r -> (r < List.length h)%nat) ->
    (forall i tx a,
        nth_error texts i = Some tx ->
        nth_error tracks i = Some a ->
        is_raise
          (fst (DialogClip_call truetype_loads textbbox_width
                  multiline_textbbox rasterize paste_pixels np_sin
                  (DialogClip_init background (scaled_image host)
                     (scaled_image maya) tx (speaking_char_at i)
                     (padded (audio_duration a))) 0%Q h)) = false) ->
    exists tl h',
      sequence_clips AudioFileClip truetype_loads textbbox_width
        multiline_textbbox rasterize paste_pixels np_sin background host maya
        texts h = (Ok tl, h')
      /\ List.length (segments tl) = List.length texts
      /\ (forall i a,
             nth_error tracks i = Some a ->
             exists c,
               nth_error (segments tl) i
               = Some (fsum (map padded
                               (firstn i (map audio_duration tracks))), c)
               /\ clip_duration c = padded (audio_duration a)
               /\ audio c = Some a
               /\ text (make_frame c) = nth i texts ""
               /\ nth_error (audio_starts tl) i
                  = Some (a, fsum (map padded
                                     (firstn i (map audio_duration tracks))))
               /\ fsum (map padded
                          (firstn (S i) (map audio_duration tracks)))
                  = b64 (fsum (map padded
                                 (firstn i (map audio_duration tracks)))
                         + clip_duration c))
      /\ timeline_duration tl
         = fsum (map padded (map audio_duration tracks))
      /\ (forall i,
             (i <= List.length tracks)%nat ->
             (Qsum (map (fun d => d + (1 # 2))
                        (firstn i (map audio_duration tracks)))
              * Qpow (1 - u64) (S i)
              <= fsum (map padded (firstn i (map audio_duration tracks)))
              /\ fsum (map padded (firstn i (map audio_duration tracks)))
                 <= Qsum (map (fun d => d + (1 # 2))
                              (firstn i (map audio_duration tracks)))
                    * Qpow (1 + u64) (S i))%Q).
Proof.
  intros AFC tl tw mb rz pp sn bg host maya texts tracks h Hne Hlen Haud
    Hbg Hhost Hmaya Hren.
  destruct (sequence_clips_run AFC tl tw mb rz pp sn bg host maya texts
              tracks h Hne Hlen Haud Hbg Hhost Hmaya Hren)
    as [clips [h' [Hrun [H1 [H2 H3]]]]].
  assert (Hn : List.length clips = List.length tracks).
  { rewrite <- (length_map audio clips), H3. apply length_map. }
  assert (Hd : map clip_duration clips
               = map padded (map audio_duration tracks))
    by (now rewrite H2, map_map).
  rewrite Hd in Hrun.
  eexists _, h'. split; [exact Hrun |].
  cbn [segments audio_starts timeline_duration].
  split.
  { rewrite length_combine. unfold cumsum0. cbn [List.length].
    rewrite cumsum_from_length, !length_map. lia. }
  split.
  { intros i a Ha.
    assert (Hi : (i < List.length tracks)%nat)
      by (apply nth_error_Some; congruence).
    assert (Ht : exists tx, nth_error texts i = Some tx).
    { destruct (nth_error texts i) eqn:E; [eauto |].
      apply nth_error_None in E. lia. }
    destruct Ht as [tx Ht].
    destruct (clip_at bg host maya texts tracks clips i tx a H1 H2 H3 Ht Ha)
      as [c [Hc [Hf [Hdur Hau]]]].
    exists c.
    rewrite !nth_error_combine, Hc, Ha.
    rewrite cumsum0_nth by (rewrite !length_map; lia).
    rewrite <- !firstn_map.
    repeat split; try assumption.
    - rewrite Hf. cbn [text DialogClip_init]. symmetry.
      now apply nth_error_nth.
    - rewrite Hdur. apply fsum_step.
      now rewrite !nth_error_map, Ha. }
  split; [apply cumsum0_last |].
  intros i Hi.
  pose proof (fsum_padded_bounds (firstn i (map audio_duration tracks))) as B.
  rewrite length_firstn, length_map, Nat.min_l in B by exact Hi.
  apply B. apply Forall_forall. intros d Hin.
  apply (In_nth_error) in Hin as [j Hj].
  assert (Hj' : nth_error (map audio_duration tracks) j = Some d).
  { revert Hj. clear. revert j.
    generalize (map audio_duration tracks). intros l. revert l.
    induction i as [|i IH]; intros [|y l] [|j] H; simpl in *;
      try discriminate; try assumption.
    now apply IH. }
  rewrite nth_error_map in Hj'.
  destruct (nth_error tracks j) as [a|] eqn:Ea; [| discriminate].
  injection Hj' as <-. now apply (Haud j a).
Qed.


Lemma timeline_of_padded_durations_witness :
  exists tl h',
    sequence_clips four_tracks (fun _ => true) sample_width sample_bbox
      sample_rasterize sample_paste sample_sin 0%nat host_scaled maya_scaled
      sample_texts sample_heap = (Ok tl, h')
    /\ List.length (segments tl) = List.length sample_texts
    /\ (forall i a,
           nth_error sample_tracks i = Some a ->
           exists c,
             nth_error (segments tl) i
             = Some (fsum (map padded
                             (firstn i (map audio_duration sample_tracks))),
                     c)
             /\ clip_duration c = padded (audio_duration a)
             /\ audio c = Some a
             /\ text (make_frame c) = nth i sample_texts ""
             /\ nth_error (audio_starts tl) i
                = Some (a, fsum (map padded
                                   (firstn i
                                      (map audio_duration sample_tracks))))
             /\ fsum (map padded
                        (firstn (S i) (map audio_duration sample_tracks)))
                = b64 (fsum (map padded
                               (firstn i (map audio_duration sample_tracks)))
                       + clip_duration c))
    /\ timeline_duration tl
       = fsum (map padded (map audio_duration sample_tracks))
    /\ (forall i,
           (i <= List.length sample_tracks)%nat ->
           (Qsum (map (fun d => d + (1 # 2))
                      (firstn i (map audio_duration sample_tracks)))
            * Qpow (1 - u64) (S i)
            <= fsum (map padded (firstn i (map audio_duration sample_tracks)))
            /\ fsum (map padded
                       (firstn i (map audio_duration sample_tracks)))
               <= Qsum (map (fun d => d + (1 # 2))
                            (firstn i (map audio_duration sample_tracks)))
                  * Qpow (1 + u64) (S i))%Q).
Proof.
  apply (timeline_of_padded_durations four_tracks (fun _ => true)
           sample_width sample_bbox sample_rasterize sample_paste sample_sin
           0%nat host_scaled maya_scaled sample_texts sample_tracks
           sample_heap).
  - discriminate.
  - reflexivity.
  - intros i a Hi.
    destruct i as [|[|[|[|i]]]]; simpl in Hi;
      try (injection Hi as <-; split; [reflexivity | discriminate]).
    destruct i; discriminate.
  - simpl. lia.
  - intros r Hr. injection Hr as <-. simpl. lia.
  - intros r Hr. injection Hr as <-. simpl. lia.
  - intros i tx a Ht Ha.
    destruct i as [|[|[|[|i]]]]; simpl in Ht, Ha;
      try (injection Ht as <-; injection Ha as <-; vm_compute; reflexivity).
    destruct i; discriminate.
Defined.

(** C9.  In the timeline the sequencer returns, clip [i] speaks from slot
    1 when [i mod 4] is 0 or 1 and from slot 2 when it is 2 or 3: the slots
    follow the pattern 1, 1, 2, 2 and depend on the index only through its
    remainder modulo 4.  The first loop picks the voice by the same rule:
    a line not tagged ['id'] is requested with the voice of Host at
    remainders 0 and 1 and of Maya at 2 and 3. *)
Theorem speaker_slot_pattern :
  forall (AudioFileClip : string -> result AudioClip)
         (truetype_loads : Z -> bool)
         (textbbox_width : Font -> string -> Z)
         (multiline_textbbox : Font -> string -> Z * Z * Z * Z)
         (rasterize : Z -> Z -> list draw_op -> Array)
         (paste_pixels : Image -> Image -> Z * Z -> Image -> result Array)
         (np_sin : Q -> Q)
         (background : ref) (host maya : Character)
         (texts languages : list string) (tracks : list AudioClip)
         (h : heap),
    texts <> [] ->
    List.length tracks = List.length texts ->
    (forall i a,
        nth_error tracks i = Some a ->
        AudioFileClip (audio_file_name i) = Ok a
        /\ (0 <= audio_duration a)%Q) ->
    (background < List.length h)%nat ->
    (forall r, scaled_image host = Some r -> (r < List.length h)%nat) ->
    (forall r, scaled_image maya = Some r -> (r < List.length h)%nat) ->
    (forall i tx a,
        nth_error texts i = Some tx ->
        nth_error tracks i = Some a ->
        is_raise
          (fst (DialogClip_call truetype_loads textbbox_width
                  multiline_textbbox rasterize paste_pixels np_sin
                  (DialogClip_init background (scaled_image host)
                     (scaled_image maya) tx (speaking_char_at i)
                     (padded (audio_duration a))) 0%Q h)) = false) ->
    exists tl h',
      sequence_clips AudioFileClip truetype_loads textbbox_width
        multiline_textbbox rasterize paste_pixels np_sin background host maya
        texts h = (Ok tl, h')
      /\ List.length (segments tl) = List.length texts
      /\ (forall i tx,
             nth_error texts i = Some tx ->
             (exists start c,
                 nth_error (segments tl) i = Some (start, c)
                 /\ text (make_frame c) = tx
                 /\ speaking_char (make_frame c)
                    = nth (i mod 4) [1; 1; 2; 2] 0)
             /\ (forall lang,
                    nth_error languages i = Some lang ->
                    lang <> "id" ->
                    nth_error (tts_calls host maya texts languages) i
                    = Some (PlayHT tx (audio_file_name i)
                              (voice_url
                                 (nth (i mod 4) [host; host; maya; maya]
                                    host))))).
Proof.
  intros AFC tl tw mb rz pp sn bg host maya texts languages tracks h Hne Hlen
    Haud Hbg Hhost Hmaya Hren.
  destruct (sequence_clips_run AFC tl tw mb rz pp sn bg host maya texts
              tracks h Hne Hlen Haud Hbg Hhost Hmaya Hren)
    as [clips [h' [Hrun [H1 [H2 H3]]]]].
  assert (Hn : List.length clips = List.length tracks).
  { rewrite <- (length_map audio clips), H3. apply length_map. }
  eexists _, h'. split; [exact Hrun |].
  cbn [segments].
  split.
  { rewrite length_combine. unfold cumsum0. cbn [List.length].
    rewrite cumsum_from_length, !length_map. lia. }
  intros i tx Ht.
  assert (Hi : (i < List.length texts)%nat)
    by (apply nth_error_Some; congruence).
  pose proof (Nat.mod_upper_bound i 4 ltac:(discriminate)) as Hlt.
  split.
  - assert (Ha : exists a, nth_error tracks i = Some a).
    { destruct (nth_error tracks i) eqn:E; [eauto |].
      apply nth_error_None in E. lia. }
    destruct Ha as [a Ha].
    destruct (clip_at bg host maya texts tracks clips i tx a H1 H2 H3 Ht Ha)
      as [c [Hc [Hf _]]].
    eexists _, c.
    rewrite nth_error_combine, Hc.
    rewrite cumsum0_nth by (rewrite length_map; lia).
    split; [reflexivity |].
    rewrite Hf. cbn [text speaking_char DialogClip_init].
    split; [reflexivity |].
    unfold speaking_char_at.
    destruct (i mod 4)%nat as [|[|[|[|r]]]]; [| | | | lia]; reflexivity.
  - intros lang Hl Hid.
    rewrite (tts_calls_request host maya texts languages i tx lang Ht Hl).
    destruct (String.eqb_spec lang "id") as [E | _]; [contradiction |].
    unfold current_character, is_host.
    destruct (i mod 4)%nat as [|[|[|[|r]]]]; [| | | | lia]; reflexivity.
Qed.

Lemma speaker_slot_pattern_witness :
  exists tl h',
    sequence_clips four_tracks (fun _ => true) sample_width sample_bbox
      sample_rasterize sample_paste sample_sin 0%nat host_scaled maya_scaled
      sample_texts sample_heap = (Ok tl, h')
    /\ List.length (segments tl) = List.length sample_texts
    /\ (forall i tx,
           nth_error sample_texts i = Some tx ->
           (exists start c,
               nth_error (segments tl) i = Some (start, c)
               /\ text (make_frame c) = tx
               /\ speaking_char (make_frame c)
                  = nth (i mod 4) [1; 1; 2; 2] 0)
           /\ (forall lang,
                  nth_error ["id"; "en"; "id"; "en"] i = Some lang ->
                  lang <> "id" ->
                  nth_error (tts_calls host_scaled maya_scaled sample_texts
                               ["id"; "en"; "id"; "en"]) i
                  = Some (PlayHT tx (audio_file_name i)
                            (voice_url
                               (nth (i mod 4)
                                  [host_scaled; host_scaled; maya_scaled;
                                   maya_scaled] host_scaled))))).
Proof.
  apply (speaker_slot_pattern four_tracks (fun _ => true)
           sample_width sample_bbox sample_rasterize sample_paste sample_sin
           0%nat host_scaled maya_scaled sample_texts
           ["id"; "en"; "id"; "en"] sample_tracks sample_heap).
  - discriminate.
  - reflexivity.
  - intros i a Hi.
    destruct i as [|[|[|[|i]]]]; simpl in Hi;
      try (injection Hi as <-; split; [reflexivity | discriminate]).
    destruct i; discriminate.
  - simpl. lia.
  - intros r Hr. injection Hr as <-. simpl. lia.
  - intros r Hr. injection Hr as <-. simpl. lia.
  - intros i tx a Ht Ha.
    destruct i as [|[|[|[|i]]]]; simpl in Ht, Ha;
      try (injection Ht as <-; injection Ha as <-; vm_compute; reflexivity).
    destruct i; discriminate.
Defined.



(** * Further properties of the code *)

(** ** Word wrap: shape of the result *)

Section WrapMore.
Import PyStr PyStrFacts.

Variable text_width : string -> Z.
Variable max_width : Z.

Local Abbreviation step := (wrap_step text_width max_width).
Local Abbreviation run ws cur := (fold_left step ws (@nil string, cur)).
Local Abbreviation all_lines ws cur :=
  (fst (run ws cur) ++ [join " " (snd (run ws cur))])%list.

(** Lines closed earlier are carried along unchanged. *)
Lemma wrap_fold_shift (ws : list string) : forall pre lines cur,
  fold_left step ws ((pre ++ lines)%list, cur)
  = ((pre ++ fst (fold_left step ws (lines, cur)))%list,
     snd (fold_left step ws (lines, cur))).
Proof.
  induction ws as [|w ws IH]; intros pre lines cur; simpl.
  - reflexivity.
  - destruct (text_width _ <=? max_width).
    + apply IH.
    + rewrite <- app_assoc. apply IH.
Qed.

Lemma step_fits (lines cur : list string) (w : string) :
  text_width (join " " (cur ++ [w])%list) <= max_width ->
  step (lines, cur) w = (lines, (cur ++ [w])%list).
Proof. intros H. unfold wrap_step. apply Z.leb_le in H. now rewrite H. Qed.

Lemma step_breaks (lines cur : list string) (w : string) :
  max_width < text_width (join " " (cur ++ [w])%list) ->
  step (lines, cur) w = ((lines ++ [join " " cur])%list, [w]).
Proof. intros H. unfold wrap_step. apply Z.leb_gt in H. now rewrite H. Qed.

Lemma all_lines_fits (w : string) (ws cur : list string) :
  text_width (join " " (cur ++ [w])%list) <= max_width ->
  all_lines (w :: ws) cur = all_lines ws (cur ++ [w])%list.
Proof. intros H. cbn [fold_left]. now rewrite step_fits. Qed.

Lemma all_lines_breaks (w : string) (ws cur : list string) :
  max_width < text_width (join " " (cur ++ [w])%list) ->
  all_lines (w :: ws) cur = (join " " cur :: all_lines ws [w])%list.
Proof.
  intros H. cbn [fold_left]. rewrite step_breaks by exact H.
  change ([] ++ [join " " cur])%list with ([join " " cur] ++ [])%list.
  rewrite (wrap_fold_shift ws [join " " cur] [] [w]). reflexivity.
Qed.

Lemma run_open_nonempty (ws : list string) : forall lines cur,
  cur <> [] -> snd (fold_left step ws (lines, cur)) <> [].
Proof.
  induction ws as [|w ws IH]; intros lines cur H; simpl; [exact H |].
  destruct (text_width _ <=? max_width); apply IH.
  - destruct cur; [contradiction | discriminate].
  - discriminate.
Qed.

(** [wrap_text] in terms of the lines produced after its first word. *)
Lemma wrap_text_first_word (text w : string) (ws : list string) :
  split text = w :: ws ->
  wrap_text text_width max_width text
  = if text_width w <=? max_width
    then all_lines ws [w]
    else ("" :: all_lines ws [w])%list.
Proof.
  intros Hs. unfold wrap_text. rewrite Hs. cbn [fold_left].
  pose proof (run_open_nonempty ws [] [w] ltac:(discriminate)) as Hne.
  destruct (Z.leb_spec (text_width w) max_width) as [Hfit | Hwide].
  - rewrite step_fits by exact Hfit. cbn [app].
    destruct (fold_left step ws ([], [w])) as [lines cur]. simpl in *.
    destruct cur; [contradiction | reflexivity].
  - rewrite step_breaks by exact Hwide.
    change ([] ++ [join " " []])%list with ([""] ++ [])%list.
    rewrite (wrap_fold_shift ws [""] [] [w]).
    destruct (fold_left step ws ([], [w])) as [lines cur]. simpl in *.
    destruct cur; [contradiction | reflexivity].
Qed.

Lemma wrap_text_no_word (text : string) :
  split text = [] -> wrap_text text_width max_width text = [].
Proof. intros Hs. unfold wrap_text. now rewrite Hs. Qed.

Lemma has_word_join (cur : list string) :
  cur <> [] -> forallb is_word cur = true -> has_word (join " " cur) = true.
Proof.
  intros Hne Hw. unfold has_word. rewrite (split_join_words cur Hw).
  destruct cur; [contradiction | reflexivity].
Qed.

(** What holds of the lines produced from an open line [cur] on. *)
Lemma all_lines_props (ws : list string) : forall cur,
  cur <> [] ->
  forallb is_word cur = true ->
  forallb is_word ws = true ->
  (text_width (join " " cur) <= max_width \/ exists w, cur = [w]) ->
  Forall (fun l => has_word l = true) (all_lines ws cur)
  /\ Forall (line_fits text_width max_width) (all_lines ws cur)
  /\ Sorted (overflows text_width max_width) (all_lines ws cur)
  /\ exists l rest,
       all_lines ws cur = (l :: rest)%list
       /\ hd_error (split l) = hd_error cur.
Proof.
  induction ws as [|w ws IH]; intros cur Hne Hcur Hws Hfit.
  - cbn [fold_left fst snd app].
    assert (Hline : line_fits text_width max_width (join " " cur)).
    { destruct Hfit as [Hfit | [w ->]].
      - right. now left.
      - right. right. simpl in Hcur. now rewrite andb_true_r in Hcur. }
    repeat split.
    + constructor; [now apply has_word_join | constructor].
    + constructor; [exact Hline | constructor].
    + constructor; constructor.
    + exists (join " " cur), []. split; [reflexivity |].
      now rewrite (split_join_words cur Hcur).
  - simpl in Hws. apply andb_prop in Hws as [Hw Hws].
    destruct (Z_le_gt_dec (text_width (join " " (cur ++ [w])%list)) max_width)
      as [Hle | Hgt].
    + rewrite (all_lines_fits w ws cur Hle).
      destruct (IH (cur ++ [w])%list) as [H1 [H2 [H3 [l [rest [E Hhd]]]]]].
      * destruct cur; discriminate.
      * rewrite forallb_app, Hcur. simpl. now rewrite Hw.
      * exact Hws.
      * now left.
      * repeat split; try assumption.
        exists l, rest. split; [exact E |].
        rewrite Hhd. destruct cur; [contradiction | reflexivity].
    + rewrite (all_lines_breaks w ws cur ltac:(lia)).
      destruct (IH [w]) as [H1 [H2 [H3 [l [rest [E Hhd]]]]]].
      * discriminate.
      * simpl. now rewrite Hw.
      * exact Hws.
      * right. now exists w.
      * repeat split.
        -- constructor; [now apply has_word_join | exact H1].
        -- constructor; [| exact H2].
           destruct Hfit as [Hfit | [w' ->]].
           ++ right. now left.
           ++ right. right. simpl in Hcur. now rewrite andb_true_r in Hcur.
        -- constructor; [exact H3 |]. rewrite E. constructor.
           simpl in Hhd. destruct (split l) as [|w' rest'] eqn:El;
             [discriminate |].
           injection Hhd as ->. exists w, rest'. split; [exact El |].
           rewrite (split_join_words cur Hcur). lia.
        -- exists (join " " cur), (all_lines ws [w]). split; [reflexivity |].
           now rewrite (split_join_words cur Hcur).
Qed.

(** The same, for the whole result of [wrap_text]. *)
Lemma wrap_text_props (text : string) :
  Forall (fun l => has_word l = true)
         (tl (wrap_text text_width max_width text))
  /\ (forall w, hd_error (split text) = Some w -> text_width w <= max_width ->
        Forall (fun l => has_word l = true)
               (wrap_text text_width max_width text))
  /\ Forall (line_fits text_width max_width)
            (wrap_text text_width max_width text)
  /\ Sorted (overflows text_width max_width)
            (wrap_text text_width max_width text).
Proof.
  destruct (split text) as [|w ws] eqn:Hs.
  - rewrite (wrap_text_no_word text Hs). repeat split; constructor.
  - rewrite (wrap_text_first_word text w ws Hs).
    pose proof (split_words text) as Hwords. rewrite Hs in Hwords.
    simpl in Hwords. apply andb_prop in Hwords as [Hw Hws].
    destruct (all_lines_props ws [w]) as [H1 [H2 [H3 [l [rest [E Hhd]]]]]].
    + discriminate.
    + simpl. now rewrite Hw.
    + exact Hws.
    + right. now exists w.
    + destruct (Z.leb_spec (text_width w) max_width) as [Hfit | Hwide].
      * split; [| split; [| split]]; try assumption.
        -- rewrite E in H1. rewrite E. cbn [tl]. now inversion H1.
        -- intros _ _ _. exact H1.
      * split; [| split; [| split]].
        -- exact H1.
        -- intros w' Hw'. injection Hw' as <-. lia.
        -- constructor; [now left | exact H2].
        -- constructor; [exact H3 |]. rewrite E. constructor.
           simpl in Hhd. destruct (split l) as [|w' rest'] eqn:El;
             [discriminate |].
           injection Hhd as ->. exists w, rest'. split; [exact El |].
           exact Hwide.
Qed.

End WrapMore.

(** X1.  Only the first line of a wrap can be empty, and it is empty only
    when the first word of the text is wider than the limit. *)
Theorem wrap_text_only_first_line_empty :
  forall (text_width : string -> Z) (max_width : Z) (text : string),
    Forall (fun l => has_word l = true)
           (tl (wrap_text text_width max_width text))
    /\ (hd_error (wrap_text text_width max_width text) = Some "" ->
        exists w, hd_error (PyStr.split text) = Some w
                  /\ max_width < text_width w).
Proof.
  intros tw mw text.
  destruct (wrap_text_props tw mw text) as [Htl [Hall _]].
  split; [exact Htl |]. intros Hhd.
  destruct (PyStr.split text) as [|w ws] eqn:Hs.
  - rewrite (wrap_text_no_word tw mw text Hs) in Hhd. discriminate.
  - exists w. split; [reflexivity |].
    destruct (Z_le_gt_dec (tw w) mw) as [Hle | Hgt]; [| lia].
    specialize (Hall w eq_refl Hle).
    destruct (wrap_text tw mw text) as [|l ls]; [discriminate |].
    injection Hhd as ->. inversion Hall as [|? ? Hbad _]. discriminate.
Qed.

(** X2.  A returned line wider than the limit holds a single word (or is the
    empty first line): lines of two or more words always fit. *)
Theorem wrap_text_wide_line_single_word :
  forall (text_width : string -> Z) (max_width : Z) (text : string),
    Forall (line_fits text_width max_width)
           (wrap_text text_width max_width text).
Proof. intros tw mw text. apply (wrap_text_props tw mw text). Qed.

(** X3.  The wrap is greedy: between any two consecutive lines, the first
    word of the second did not fit at the end of the first. *)
Theorem wrap_text_breaks_forced :
  forall (text_width : string -> Z) (max_width : Z) (text : string),
    Sorted (overflows text_width max_width)
           (wrap_text text_width max_width text).
Proof. intros tw mw text. apply (wrap_text_props tw mw text). Qed.

Lemma has_word_length (ls : list string) :
  Forall (fun l => has_word l = true) ls ->
  (List.length ls <= List.length (flat_map PyStr.split ls))%nat.
Proof.
  induction 1 as [|l ls Hl _ IH]; simpl; [lia |].
  rewrite length_app. unfold has_word in Hl.
  destruct (PyStr.split l); [discriminate | simpl; lia].
Qed.

(** X4.  A wrap has at most one line more than the text has words. *)
Theorem wrap_text_line_count :
  forall (text_width : string -> Z) (max_width : Z) (text : string),
    (List.length (wrap_text text_width max_width text)
     <= S (List.length (PyStr.split text)))%nat.
Proof.
  intros tw mw text.
  destruct (wrap_text_props tw mw text) as [Htl _].
  rewrite <- (wrap_text_words tw mw text).
  destruct (wrap_text tw mw text) as [|l ls]; simpl; [lia |].
  apply has_word_length in Htl. simpl in Htl. rewrite length_app. lia.
Qed.

(** ** Subtitle renderer: sizes, fonts and layout *)

(** At a size of 20 or less the loop body never runs. *)
Lemma shrink_loop_skipped :
  forall (truetype_loads : Z -> bool) (textbbox_width : Font -> string -> Z)
         (text : string) (max_width : Z) (v : shrink_vars),
    current_fontsize v <= 20 ->
    shrink_loop truetype_loads textbbox_width text max_width v = Ok v.
Proof.
  intros tl tw text mw v Hle. simp shrink_loop.
  destruct (Z_lt_dec 20 (current_fontsize v)) as [Hlt | Hge]; [lia |].
  reflexivity.
Qed.

(** X5.  At an initial font size of 20 or less the text is never wrapped:
    the mask returned is the same whatever the text (the caption drawn is
    the empty string), and the call does not raise even when the font file
    is missing. *)
Theorem caption_dropped_at_small_sizes :
  forall (truetype_loads : Z -> bool)
         (textbbox_width : Font -> string -> Z)
         (multiline_textbbox : Font -> string -> Z * Z * Z * Z)
         (rasterize : Z -> Z -> list draw_op -> Array)
         (w h : Z) (text : string) (fontsize : Z),
    fontsize <= 20 ->
    exists mask,
      create_subtitle_mask truetype_loads textbbox_width multiline_textbbox
        rasterize w h text fontsize = Ok mask
      /\ forall text',
           create_subtitle_mask truetype_loads textbbox_width
             multiline_textbbox rasterize w h text' fontsize = Ok mask.
Proof.
  intros tl tw mb rz w h text fontsize Hle.
  unfold create_subtitle_mask, fit_text.
  rewrite shrink_loop_skipped by exact Hle. cbn [wrapped_lines font].
  destruct (mb _ _) as [[[x0 y0] x1] y1] eqn:Hb.
  eexists. split; [reflexivity |]. intros text'.
  rewrite shrink_loop_skipped by exact Hle. cbn [wrapped_lines font].
  rewrite Hb. reflexivity.
Qed.

Lemma caption_dropped_at_small_sizes_witness :
  exists mask,
    create_subtitle_mask (fun _ => false) sample_width sample_bbox
      sample_rasterize 1920 1080 "Halo semua!" 20 = Ok mask
    /\ forall text',
         create_subtitle_mask (fun _ => false) sample_width sample_bbox
           sample_rasterize 1920 1080 text' 20 = Ok mask.
Proof.
  apply (caption_dropped_at_small_sizes (fun _ => false) sample_width
           sample_bbox sample_rasterize 1920 1080 "Halo semua!" 20).
  lia.
Defined.

Section ShrinkTrace.

Variable truetype_loads : Z -> bool.
Variable textbbox_width : Font -> string -> Z.
Hypothesis Hloads : forall s, 20 < s -> truetype_loads s = true.

(** The sizes the loop tries from the variables [v] on, and what it keeps. *)
Lemma shrink_loop_trace (text : string) (max_width : Z) (v : shrink_vars) :
  20 < current_fontsize v ->
  exists v' extra,
    shrink_loop truetype_loads textbbox_width text max_width v = Ok v'
    /\ tried v' = (tried v ++ extra)%list
    /\ extra <> []
    /\ (forall k s, nth_error extra k = Some s ->
          s = current_fontsize v - 2 * Z.of_nat k)
    /\ (forall s, In s (removelast extra) ->
          (3 < List.length
                 (wrap_text (textbbox_width (TrueType s)) max_width text))%nat)
    /\ font v' = TrueType (last extra 0)
    /\ wrapped_lines v'
       = wrap_text (textbbox_width (TrueType (last extra 0))) max_width text
    /\ ((List.length (wrapped_lines v') <= 3)%nat \/ last extra 0 <= 22).
Proof.
  funelim (shrink_loop truetype_loads textbbox_width text max_width v);
    intros Hbig.
  - lia.
  - unfold ImageFont_truetype in *.
    rewrite Hloads in * by assumption. discriminate.
  - assert (Hf : f = TrueType (current_fontsize v)).
    { unfold ImageFont_truetype in *.
      rewrite Hloads in * by assumption. congruence. }
    subst f. eexists. exists [current_fontsize v].
    split; [reflexivity |]. cbn [tried font wrapped_lines last removelast].
    repeat split; try discriminate.
    + intros [|k] s Hk; simpl in Hk.
      * injection Hk as <-. lia.
      * destruct k; discriminate.
    + intros s [].
    + left. now apply Nat.leb_le.
  - assert (Hf : f = TrueType (current_fontsize v)).
    { unfold ImageFont_truetype in *.
      rewrite Hloads in * by assumption. congruence. }
    subst f.
    match goal with
    | E : (_ <=? 3)%nat = false |- _ =>
        apply Nat.leb_gt in E; rename E into Hfail
    end.
    destruct (Z_le_gt_dec (current_fontsize v - 2) 20) as [Hle | Hgt].
    + rewrite shrink_loop_skipped by (cbn; lia).
      eexists. exists [current_fontsize v].
      split; [reflexivity |]. cbn [tried font wrapped_lines last removelast].
      repeat split; try discriminate.
      * intros [|k] s Hk; simpl in Hk.
        -- injection Hk as <-. lia.
        -- destruct k; discriminate.
      * intros s [].
      * right. lia.
    + match goal with
      | IH : _ -> exists _ _, shrink_loop _ _ _ _ _ = Ok _ /\ _ |- _ =>
          destruct (IH ltac:(cbn; lia))
            as [v' [extra [Hrun [Htried [Hne [Hdesc [Hprev [Hfont [Hwrap Hstop]]]]]]]]]
      end.
      cbn [tried current_fontsize] in Htried, Hdesc.
      exists v', (current_fontsize v :: extra).
      split; [exact Hrun |].
      assert (Hlast : last (current_fontsize v :: extra) 0 = last extra 0).
      { destruct extra; [contradiction | reflexivity]. }
      rewrite Hlast.
      repeat split; try assumption; try discriminate.
      * rewrite Htried, <- app_assoc. reflexivity.
      * intros [|k] s Hk; simpl in Hk.
        -- injection Hk as <-. lia.
        -- rewrite (Hdesc k s Hk). lia.
      * intros s Hin.
        assert (Hrl : removelast (current_fontsize v :: extra)
                      = current_fontsize v :: removelast extra).
        { destruct extra; [contradiction | reflexivity]. }
        rewrite Hrl in Hin. destruct Hin as [<- | Hin]; [exact Hfail |].
        now apply Hprev.
Qed.
End ShrinkTrace.

(** X6.  From an initial size above 20, with a font file that loads, the
    loop tries the sizes [fontsize], [fontsize - 2], ... in this order, every
    size tried before the last one gave more than three lines, and the font
    and the wrap it keeps are those of the last size tried, which either
    fits in three lines or is the last size above 20 (21 or 22): the caption
    is set at the largest size of the sequence that fits in three lines, or
    at the last size above 20 when none does. *)
Theorem shrink_loop_largest_fitting_size :
  forall (truetype_loads : Z -> bool) (textbbox_width : Font -> string -> Z)
         (w : Z) (text : string) (fontsize : Z),
    20 < fontsize ->
    (forall s, 20 < s -> truetype_loads s = true) ->
    exists v,
      fit_text truetype_loads textbbox_width w text fontsize = Ok v
      /\ tried v <> []
      /\ (forall k s, nth_error (tried v) k = Some s ->
            s = fontsize - 2 * Z.of_nat k)
      /\ (forall s, In s (removelast (tried v)) ->
            (3 < List.length
                   (wrap_text (textbbox_width (TrueType s)) (w - 100) text))%nat)
      /\ font v = TrueType (last (tried v) 0)
      /\ wrapped_lines v
         = wrap_text (textbbox_width (TrueType (last (tried v) 0)))
             (w - 100) text
      /\ ((List.length (wrapped_lines v) <= 3)%nat
          \/ last (tried v) 0 <= 22).
Proof.
  intros tl tw w text fontsize Hbig Hloads. unfold fit_text.
  destruct (shrink_loop_trace tl tw Hloads text (w - 100)
              {| current_fontsize := fontsize;
                 font := initial_font tl fontsize;
                 wrapped_lines := [];
                 tried := [] |} Hbig)
    as [v [extra [Hrun [Htried H]]]].
  cbn [tried current_fontsize app] in Htried, H. subst extra.
  exists v. split; [exact Hrun | exact H].
Qed.

Lemma shrink_loop_largest_fitting_size_witness :
  exists v,
    fit_text (fun _ => true) sample_width 1920 long_text 48 = Ok v
    /\ tried v <> []
    /\ (forall k s, nth_error (tried v) k = Some s ->
          s = 48 - 2 * Z.of_nat k)
    /\ (forall s, In s (removelast (tried v)) ->
          (3 < List.length
                 (wrap_text (sample_width (TrueType s)) (1920 - 100)
                    long_text))%nat)
    /\ font v = TrueType (last (tried v) 0)
    /\ wrapped_lines v
       = wrap_text (sample_width (TrueType (last (tried v) 0)))
           (1920 - 100) long_text
    /\ ((List.length (wrapped_lines v) <= 3)%nat
        \/ last (tried v) 0 <= 22).
Proof.
  apply (shrink_loop_largest_fitting_size (fun _ => true) sample_width 1920
           long_text 48).
  - lia.
  - reflexivity.
Defined.
(** ** Sequencer: audio files and synthesis requests *)

Lemma string_length_append (a b : string) :
  String.length (a ++ b) = (String.length a + String.length b)%nat.
Proof. induction a as [|c a IH]; simpl; [reflexivity | now rewrite IH]. Qed.

Lemma string_append_inv_tail (c : string) : forall a b,
  (a ++ c = b ++ c)%string -> a = b.
Proof.
  induction a as [|x a IH]; intros [|y b] H.
  - reflexivity.
  - apply (f_equal String.length) in H.
    simpl in H. rewrite string_length_append in H. lia.
  - apply (f_equal String.length) in H.
    simpl in H. rewrite string_length_append in H. lia.
  - simpl in H. injection H as -> H. f_equal. now apply IH.
Qed.

(** X12.  Distinct line indices get distinct temporary audio files: no line
    overwrites the track of another. *)
Theorem audio_file_name_injective :
  forall i j : nat, audio_file_name i = audio_file_name j <-> i = j.
Proof.
  intros i j. split; [| now intros ->].
  intros H. unfold audio_file_name in H.
  cbn [append] in H. injection H as H.
  apply string_append_inv_tail in H.
  apply DecimalNat.Unsigned.to_uint_inj.
  pose proof (NilEmpty.usu (Nat.to_uint i)) as Hi.
  pose proof (NilEmpty.usu (Nat.to_uint j)) as Hj.
  rewrite H in Hi. congruence.
Qed.

(** X13.  The first loop makes one synthesis request per line that has a
    language tag, in script order.  Request [i] writes the file
    [dialog_i.mp3]; a line tagged ['id'] goes to gTTS whoever speaks, any
    other line goes to Play.ht with the voice of the character that speaks
    at index [i].  For the tags ['id'] and ['en'] this is the request that
    [Character.generate_audio] of the speaking character would make. *)
Theorem tts_calls_nth :
  forall (host maya : Character) (texts languages : list string)
         (i : nat) (text lang : string),
    nth_error texts i = Some text ->
    nth_error languages i = Some lang ->
    List.length (tts_calls host maya texts languages)
    = Nat.min (List.length texts) (List.length languages)
    /\ nth_error (tts_calls host maya texts languages) i
       = Some (if (lang =? "id")%string
               then Gtts text (audio_file_name i) "id"
               else PlayHT text (audio_file_name i)
                      (voice_url (if speaking_char_at i =? 1
                                  then host else maya)))
    /\ (lang = "id" \/ lang = "en" ->
        Character_generate_audio (current_character host maya i) text
          (audio_file_name i) lang
        = nth_error (tts_calls host maya texts languages) i).
Proof.
  intros host maya texts languages i text lang Ht Hl.
  assert (Hi : (i < List.length texts)%nat)
    by (apply nth_error_Some; congruence).
  assert (Hlen : List.length (tts_calls host maya texts languages)
                 = Nat.min (List.length texts) (List.length languages)).
  { unfold tts_calls, enumerate.
    rewrite length_map, !length_combine, length_map, !length_seq. lia. }
  assert (Hnth : nth_error (tts_calls host maya texts languages) i
       = Some (if (lang =? "id")%string
               then Gtts text (audio_file_name i) "id"
               else PlayHT text (audio_file_name i)
                      (voice_url (current_character host maya i)))).
  { unfold tts_calls, enumerate.
    rewrite nth_error_map, !nth_error_combine, nth_error_map, Ht, Hl.
    rewrite !length_combine, length_map, !length_seq.
    assert (Hl' : (i < List.length languages)%nat)
      by (apply nth_error_Some; congruence).
    rewrite !nth_error_seq by lia. reflexivity. }
  split; [exact Hlen |]. split.
  - rewrite Hnth. unfold current_character.
    now rewrite is_host_speaking.
  - intros Hlang. rewrite Hnth. unfold Character_generate_audio.
    destruct Hlang as [-> | ->]; reflexivity.
Qed.

Lemma tts_calls_nth_witness :
  List.length (tts_calls host_init maya_init ["satu"; "one"] ["id"; "en"])
  = Nat.min (List.length ["satu"; "one"]) (List.length ["id"; "en"])
  /\ nth_error (tts_calls host_init maya_init ["satu"; "one"] ["id"; "en"]) 1
     = Some (if ("en" =? "id")%string
             then Gtts "one" (audio_file_name 1) "id"
             else PlayHT "one" (audio_file_name 1)
                    (voice_url (if speaking_char_at 1 =? 1
                                then host_init else maya_init)))
  /\ ("en" = "id" \/ "en" = "en" ->
      Character_generate_audio (current_character host_init maya_init 1)
        "one" (audio_file_name 1) "en"
      = nth_error (tts_calls host_init maya_init ["satu"; "one"] ["id"; "en"])
          1).
Proof.
  apply (tts_calls_nth host_init maya_init ["satu"; "one"] ["id"; "en"]
           1%nat "one" "en"); reflexivity.
Defined.


(** ** Sequencer: runs that build no timeline *)

Section SequencerStops.

Variable AudioFileClip : string -> result AudioClip.
Variable truetype_loads : Z -> bool.
Variable textbbox_width : Font -> string -> Z.
Variable multiline_textbbox : Font -> string -> Z * Z * Z * Z.
Variable rasterize : Z -> Z -> list draw_op -> Array.
Variable paste_pixels : Image -> Image -> Z * Z -> Image -> result Array.
Variable np_sin : Q -> Q.
Variables (bg : ref) (host maya : Character).

Local Abbreviation call :=
  (DialogClip_call truetype_loads textbbox_width multiline_textbbox
     rasterize paste_pixels np_sin).

Local Abbreviation build :=
  (build_clips AudioFileClip truetype_loads textbbox_width multiline_textbbox
     rasterize paste_pixels np_sin bg host maya).

Local Abbreviation run :=
  (sequence_clips AudioFileClip truetype_loads textbbox_width
     multiline_textbbox rasterize paste_pixels np_sin bg host maya).

(** The clip loop raises when it holds a line whose track does not decode
    or whose first frame cannot be rendered. *)
Lemma build_clips_stops (ts : list string) :
  forall (k j : nat) (tx : string) (h : heap),
    nth_error ts j = Some tx ->
    (is_raise (AudioFileClip (audio_file_name (k + j))) = true
     \/ forall d h',
          is_raise
            (fst (call (DialogClip_init bg (scaled_image host)
                          (scaled_image maya) tx (speaking_char_at (k + j)) d)
                    0%Q h')) = true) ->
    is_raise
      (fst (build (combine (seq k (List.length ts))
                     (combine ts
                        (map audio_file_name (seq k (List.length ts))))) h))
    = true.
Proof.
  induction ts as [|tx0 ts IH]; intros k j tx h Hj Hfail.
  - destruct j; discriminate.
  - cbn [List.length seq map combine build_clips].
    unfold bind at 1, lift at 1.
    destruct (AudioFileClip (audio_file_name k)) as [a | e] eqn:Ea;
      [| reflexivity].
    unfold bind at 1, VideoClip_init at 1, bind at 1.
    destruct (call _ 0%Q h) as [[frame | e] h1] eqn:Ec.
    + unfold ret at 1. unfold bind at 1.
      destruct j as [|j].
      * exfalso. rewrite Nat.add_0_r in Hfail. simpl in Hj.
        injection Hj as ->.
        destruct Hfail as [Hf | Hf]; [rewrite Ea in Hf; discriminate |].
        specialize (Hf (b64 (audio_duration a + (1 # 2))) h).
        rewrite Ec in Hf. discriminate.
      * simpl in Hj. rewrite <- Nat.add_succ_comm in Hfail.
        pose proof (IH (S k) j tx h1 Hj Hfail) as Hrest.
        destruct (build _ h1) as [[clips | e] h2]; [discriminate |].
        reflexivity.
    + reflexivity.
Qed.

Lemma sequence_clips_stops (texts : list string) (j : nat) (tx : string)
    (h : heap) :
  nth_error texts j = Some tx ->
  (is_raise (AudioFileClip (audio_file_name j)) = true
   \/ forall d h',
        is_raise
          (fst (call (DialogClip_init bg (scaled_image host)
                        (scaled_image maya) tx (speaking_char_at j) d)
                  0%Q h')) = true) ->
  is_raise (fst (run texts h)) = true.
Proof.
  intros Hj Hfail. unfold sequence_clips, enumerate.
  rewrite length_combine, length_map, length_seq, Nat.min_id.
  pose proof (build_clips_stops texts 0%nat j tx h Hj Hfail) as Hb.
  unfold bind. destruct (build _ h) as [[clips | e] h1]; [discriminate |].
  reflexivity.
Qed.

(** Without the font file no frame can be rendered. *)
Lemma call_raises_without_font (c : DialogClip) (t : Q) (h : heap) :
  truetype_loads 48 = false ->
  is_raise (fst (call c t h)) = true.
Proof.
  intros Hload.
  unfold DialogClip_call, bind, Image_copy, alloc, raise, ret, lift, np_array.
  destruct (char1 c) as [c1|], (char2 c) as [c2|]; try reflexivity.
  destruct (shake_offset np_sin t) as [offset|]; [| reflexivity].
  destruct (speaking_char c =? 1); rewrite paste_fresh;
    (destruct (paste_pixels _ _ _ _); [| reflexivity]);
    rewrite paste_fresh;
    (destruct (paste_pixels _ _ _ _); [| reflexivity]);
    rewrite subtitle_raises_without_font by (try lia; exact Hload);
    reflexivity.
Qed.

End SequencerStops.

(** X9.  On a machine where the TrueType font cannot be loaded at size 48,
    no render call returns a frame, and the sequencer, which renders the
    first frame of every clip as it builds it, raises on every non-empty
    script instead of returning a timeline. *)
Theorem no_timeline_without_font :
  forall (AudioFileClip : string -> result AudioClip)
         (truetype_loads : Z -> bool)
         (textbbox_width : Font -> string -> Z)
         (multiline_textbbox : Font -> string -> Z * Z * Z * Z)
         (rasterize : Z -> Z -> list draw_op -> Array)
         (paste_pixels : Image -> Image -> Z * Z -> Image -> result Array)
         (np_sin : Q -> Q)
         (background : ref) (host maya : Character) (texts : list string)
         (h : heap),
    truetype_loads 48 = false ->
    texts <> [] ->
    (forall (clip : DialogClip) (t : Q) (h' : heap),
        is_raise
          (fst (DialogClip_call truetype_loads textbbox_width
                  multiline_textbbox rasterize paste_pixels np_sin clip t h'))
        = true)
    /\ is_raise
         (fst (sequence_clips AudioFileClip truetype_loads textbbox_width
                 multiline_textbbox rasterize paste_pixels np_sin background
                 host maya texts h)) = true.
Proof.
  intros AFC tl tw mb rz pp sn bg host maya texts h Hload Hne.
  split.
  - intros clip t h'. now apply call_raises_without_font.
  - destruct texts as [|tx ts]; [contradiction |].
    apply (sequence_clips_stops AFC tl tw mb rz pp sn bg host maya
             (tx :: ts) 0%nat tx h eq_refl).
    right. intros d h'. now apply call_raises_without_font.
Qed.

Lemma no_timeline_without_font_witness :
  (forall (clip : DialogClip) (t : Q) (h' : heap),
      is_raise
        (fst (DialogClip_call (fun _ => false) sample_width sample_bbox
                sample_rasterize sample_paste sample_sin clip t h')) = true)
  /\ is_raise
       (fst (sequence_clips four_tracks (fun _ => false) sample_width
               sample_bbox sample_rasterize sample_paste sample_sin 0%nat
               host_scaled maya_scaled sample_texts sample_heap)) = true.
Proof.
  apply (no_timeline_without_font four_tracks (fun _ => false) sample_width
           sample_bbox sample_rasterize sample_paste sample_sin 0%nat
           host_scaled maya_scaled sample_texts sample_heap).
  - reflexivity.
  - discriminate.
Defined.

(** X14.  If the track of some line cannot be decoded (its synthesis left
    no file), the sequencer returns no timeline: it raises, whatever the
    other tracks are. *)
Theorem sequence_clips_audio_failure :
  forall (AudioFileClip : string -> result AudioClip)
         (truetype_loads : Z -> bool)
         (textbbox_width : Font -> string -> Z)
         (multiline_textbbox : Font -> string -> Z * Z * Z * Z)
         (rasterize : Z -> Z -> list draw_op -> Array)
         (paste_pixels : Image -> Image -> Z * Z -> Image -> result Array)
         (np_sin : Q -> Q)
         (background : ref) (host maya : Character) (texts : list string)
         (h : heap) (j : nat),
    (j < List.length texts)%nat ->
    is_raise (AudioFileClip (audio_file_name j)) = true ->
    is_raise
      (fst (sequence_clips AudioFileClip truetype_loads textbbox_width
              multiline_textbbox rasterize paste_pixels np_sin background
              host maya texts h)) = true.
Proof.
  intros AFC tl tw mb rz pp sn bg host maya texts h j Hj Hfail.
  destruct (nth_error texts j) as [tx|] eqn:E.
  - apply (sequence_clips_stops AFC tl tw mb rz pp sn bg host maya texts j tx
             h E).
    now left.
  - apply nth_error_None in E. lia.
Qed.

Lemma sequence_clips_audio_failure_witness :
  is_raise
    (fst (sequence_clips broken_track (fun _ => true) sample_width
            sample_bbox sample_rasterize sample_paste sample_sin 0%nat
            host_scaled maya_scaled ["satu"; "one"; "dua"] sample_heap))
  = true.
Proof.
  apply (sequence_clips_audio_failure broken_track (fun _ => true)
           sample_width sample_bbox sample_rasterize sample_paste sample_sin
           0%nat host_scaled maya_scaled ["satu"; "one"; "dua"] sample_heap
           1%nat).
  - simpl. lia.
  - reflexivity.
Defined.

(** [Character.scale_image] never raises; when the picture cannot be
    opened the character is left without a scaled image. *)
Lemma Character_scale_image_total
    (Image_open : string -> result Image)
    (resample : Image -> Z * Z -> result Array)
    (self : Character) (target_height : Z) (h : heap) :
  exists self' log h',
    Character_scale_image Image_open resample self target_height h
    = (Ok (self', log), h')
    /\ (is_raise (Image_open (image_path self)) = true ->
        scaled_image self' = None).
Proof.
  unfold Character_scale_image, scale_image, scale_image_try.
  destruct (Image_open (image_path self)) as [img | e].
  - destruct (scaled_size (im_size img) target_height) as [size | e].
    + destruct (Image_resize resample img size) as [scaled | e];
        eexists _, _, _; (split; [reflexivity | discriminate]).
    + eexists _, _, _. split; [reflexivity | discriminate].
  - eexists _, _, _. split; [reflexivity | reflexivity].
Qed.

(** X16.  If the picture of either character cannot be opened, the run
    builds no timeline for a non-empty script: scaling logs the failure and
    goes on, and the run then raises before anything is handed to the
    encoder. *)
Theorem missing_sprite_aborts_run :
  forall (Image_open : string -> result Image)
         (resample resize_default : Image -> Z * Z -> result Array)
         (AudioFileClip : string -> result AudioClip)
         (truetype_loads : Z -> bool)
         (textbbox_width : Font -> string -> Z)
         (multiline_textbbox : Font -> string -> Z * Z * Z * Z)
         (rasterize : Z -> Z -> list draw_op -> Array)
         (paste_pixels : Image -> Image -> Z * Z -> Image -> result Array)
         (np_sin : Q -> Q)
         (background_path : string) (texts languages : list string)
         (h : heap),
    texts <> [] ->
    (is_raise (Image_open (image_path host_init)) = true
     \/ is_raise (Image_open (image_path maya_init)) = true) ->
    is_raise
      (fst (create_conversation_video_oop Image_open resample resize_default
              AudioFileClip truetype_loads textbbox_width multiline_textbbox
              rasterize paste_pixels np_sin background_path texts languages
              h)) = true.
Proof.
  intros IO rs rd AFC tl tw mb rz pp sn path texts languages h Hne Hmiss.
  unfold create_conversation_video_oop.
  unfold bind at 1, lift at 1.
  destruct (IO path) as [opened | e]; [| reflexivity].
  unfold bind at 1, lift at 1.
  destruct (Image_resize rd opened (1920, 1080)) as [resized | e];
    [| reflexivity].
  unfold bind at 1, alloc at 1.
  unfold bind at 1.
  destruct (Character_scale_image_total IO rs host_init 400
              (h ++ [resized])%list)
    as [host [log1 [h1 [E1 N1]]]].
  rewrite E1. unfold bind at 1.
  destruct (Character_scale_image_total IO rs maya_init 400 h1)
    as [maya [log2 [h2 [E2 N2]]]].
  rewrite E2. unfold bind at 1.
  destruct texts as [|tx ts]; [contradiction |].
  assert (Hstop : is_raise
            (fst (sequence_clips AFC tl tw mb rz pp sn (List.length h) host
                    maya (tx :: ts) h2)) = true).
  { apply (sequence_clips_stops AFC tl tw mb rz pp sn (List.length h) host
             maya (tx :: ts) 0%nat tx h2 eq_refl).
    right. intros d h'.
    rewrite call_absent_sprite; [reflexivity |].
    cbn [char1 char2 DialogClip_init].
    destruct Hmiss as [Hm | Hm]; [left; now apply N1 | right; now apply N2]. }
  destruct (sequence_clips _ _ _ _ _ _ _ _ _ _ _ h2) as [[v | e] h3];
    [discriminate | reflexivity].
Qed.

Lemma missing_sprite_aborts_run_witness :
  is_raise
    (fst (create_conversation_video_oop background_only_open strict_resample
            strict_resample four_tracks (fun _ => true) sample_width
            sample_bbox sample_rasterize sample_paste sample_sin
            "background4.jpg" sample_texts ["id"; "en"; "id"; "en"] []))
  = true.
Proof.
  apply (missing_sprite_aborts_run background_only_open strict_resample
           strict_resample four_tracks (fun _ => true) sample_width
           sample_bbox sample_rasterize sample_paste sample_sin
           "background4.jpg" sample_texts ["id"; "en"; "id"; "en"] []).
  - discriminate.
  - left. reflexivity.
Defined.


(** ** Main program: the language tags *)

Lemma main_languages_nth (k : nat) : forall i,
  (i < 2 * k)%nat ->
  nth_error (List.concat (repeat ["id"; "en"] k)) i
  = Some (if Nat.even i then "id" else "en").
Proof.
  induction k as [|k IH]; intros i Hi; [lia |].
  cbn [repeat List.concat app].
  destruct i as [|[|i]]; try reflexivity.
  cbn [nth_error]. rewrite IH by lia. reflexivity.
Qed.

(** X18.  The main program tags the lines ['id'], ['en'], ['id'], ... in
    turn, for an even number of lines only: with an odd number of lines the
    last one has no tag, so the first loop requests no audio for it. *)
Theorem main_languages_alternate :
  forall (host maya : Character) (texts : list string),
    List.length (main_languages (List.length texts))
    = (List.length texts - List.length texts mod 2)%nat
    /\ (forall i,
          (i < List.length texts - List.length texts mod 2)%nat ->
          nth_error (main_languages (List.length texts)) i
          = Some (if Nat.even i then "id" else "en"))
    /\ List.length
         (tts_calls host maya texts (main_languages (List.length texts)))
       = (List.length texts - List.length texts mod 2)%nat.
Proof.
  intros host maya texts. set (n := List.length texts).
  assert (Hn : (n - n mod 2 = 2 * (n / 2))%nat).
  { pose proof (Nat.div_mod_eq n 2). lia. }
  assert (Hlen : List.length (main_languages n) = (2 * (n / 2))%nat).
  { unfold main_languages. generalize (n / 2)%nat. intros k.
    induction k as [|k IH]; [reflexivity |].
    cbn [repeat List.concat]. rewrite length_app, IH. simpl. lia. }
  split; [now rewrite Hlen, Hn |]. split.
  - intros i Hi. unfold main_languages. apply main_languages_nth. lia.
  - unfold tts_calls, enumerate.
    rewrite length_map, !length_combine, length_map, !length_seq, Hlen.
    fold n. lia.
Qed.
